(** * Referendum pipeline ([pandas_questions.py]): a shallow embedding

    The program joins three tables (referendum ballots, regions,
    departments), sums the ballots per region and computes, per region
    geometry, the share of 'Choice A' among the expressed ballots.

    Tables are modelled as [DataFrame]s: an ordered list of column labels
    and a list of rows, every row carrying its index label and one cell per
    column.  A cell is the value it holds: an integer, a string, a binary64
    float or the missing value (NaN).  The library operations the source
    calls ([rename], [astype(str)], [str.zfill], [merge], [dropna],
    [groupby(...).sum()], [set_index], column selection and assignment,
    element-wise [+] and [/]) are modelled at that level:

    - cells are compared by value; pandas' dtype bookkeeping (the upcast of
      an integer column that receives a NaN, the refusal to merge a numeric
      key column with a string one) is not represented;
    - an integer cell is a mathematical integer: the wrap-around of a 64-bit
      column is not represented;
    - a float cell is a binary64 number ([spec_float], with the operations
      of [SpecFloat] at precision 53), and NaN in a column is the missing
      value;
    - a character is one [ascii];
    - the rows of a merge come in the order of the left table;
    - the debugging [print]s and the drawing of the map leave the tables
      untouched and are left out; the tables the program reads from its four
      files are arguments of the model.

    Tables passed as arguments are Python objects: they live in a [heap]
    and are passed by reference, so that an assignment to a column of an
    argument is visible to the caller.  The script at the end of the file is
    the computation [main]: every table read from a file or returned by a
    function is a new object of the heap. *)

From Stdlib Require Import ZArith String Ascii List Lia QArith Qabs Qpower.
From Stdlib Require Import SpecFloat.
From stdpp Require Import base list strings pretty gmap sorting.

Local Open Scope Z_scope.
Local Open Scope string_scope.
Local Open Scope list_scope.

(** ** Cells *)

(** binary64: 53 bits of precision, infinities at exponent 1024 *)
Definition prec : Z := 53.
Definition emax : Z := 1024.

Inductive value :=
  | VNull
  | VInt (n : Z)
  | VFloat (f : spec_float)
  | VStr (s : string).

Global Instance spec_float_eq_dec : EqDecision spec_float.
Proof. solve_decision. Defined.

Global Instance value_eq_dec : EqDecision value.
Proof. solve_decision. Defined.

(** [pd.isna] on one cell *)
Definition isna (v : value) : bool :=
  match v with
  | VNull | VFloat S754_nan => true
  | _ => false
  end.

(** conversion of an integer to binary64 (round to nearest even) *)
Definition Z2F (n : Z) : spec_float := binary_normalize prec emax n 0 false.

(** a float result stored in a column: NaN is the missing value *)
Definition of_float (f : spec_float) : value :=
  match f with
  | S754_nan => VNull
  | _ => VFloat f
  end.

(** the float a numeric cell stands for in float arithmetic *)
Definition as_float (v : value) : option spec_float :=
  match v with
  | VNull => Some S754_nan
  | VInt n => Some (Z2F n)
  | VFloat f => Some f
  | VStr _ => None
  end.

(** ** Strings *)

(** [c * n] *)
Fixpoint string_rep (c : ascii) (n : nat) : string :=
  match n with
  | O => EmptyString
  | S n => String c (string_rep c n)
  end.

Definition is_sign (c : ascii) : bool :=
  bool_decide (c = "+"%char) || bool_decide (c = "-"%char).

(** [str.zfill(width)]: zeros on the left up to [width], after a leading
    sign when there is one *)
Definition zfill (width : nat) (s : string) : string :=
  let n := String.length s in
  if (width <=? n)%nat then s
  else
    let fill := string_rep "0"%char (width - n) in
    match s with
    | String c s' => if is_sign c then String c (fill +:+ s') else fill +:+ s
    | EmptyString => fill
    end.

(** the kind of a cell, for the order between cells of different kinds *)
Definition rank (v : value) : Z :=
  match v with
  | VNull => 0
  | VInt _ => 1
  | VFloat _ => 2
  | VStr _ => 3
  end.

(** Cells of one kind are ordered as Python orders them; between kinds the
    order is by kind, numbers before strings. *)
Definition value_leb (a b : value) : bool :=
  match a, b with
  | VInt x, VInt y => (x <=? y)%Z
  | VStr s, VStr t => String.leb s t
  | VFloat x, VFloat y => SFleb x y
  | _, _ => (rank a <=? rank b)%Z
  end.

Fixpoint key_leb (k1 k2 : list value) : bool :=
  match k1, k2 with
  | [], _ => true
  | _ :: _, [] => false
  | a :: k1, b :: k2 => if decide (a = b) then key_leb k1 k2 else value_leb a b
  end.

(** ** Errors *)

Inductive error :=
  | KeyError (name : string)
  | TypeError
  | ValueError
  | NoObject.

Inductive result (A : Type) :=
  | Ok (x : A)
  | Err (e : error).
Arguments Ok {A} x.
Arguments Err {A} e.

Global Instance result_ret : MRet result := λ A x, Ok x.
Global Instance result_bind : MBind result := λ A B f m,
  match m with
  | Ok x => f x
  | Err e => Err e
  end.

(** ** Tables *)

Record row := Row { label : value; cells : list value }.

Record DataFrame := Frame {
  index_name : option string;
  columns : list string;
  rows : list row
}.

Global Instance row_eq_dec : EqDecision row.
Proof. solve_decision. Defined.
Global Instance DataFrame_eq_dec : EqDecision DataFrame.
Proof. solve_decision. Defined.

Definition nrows (df : DataFrame) : nat := length (rows df).

(** the cell of a row in the column at position [i] *)
Definition cell (i : nat) (r : row) : value := default VNull (cells r !! i).

Fixpoint index_of (name : string) (cols : list string) : option nat :=
  match cols with
  | [] => None
  | c :: cols => if decide (c = name) then Some O else S <$> index_of name cols
  end.

(** position of a column label; a missing label is a [KeyError] *)
Definition col_pos (name : string) (df : DataFrame) : result nat :=
  match index_of name (columns df) with
  | Some i => Ok i
  | None => Err (KeyError name)
  end.

(** a fresh [RangeIndex] *)
Definition reindex (rs : list (list value)) : list row :=
  imap (λ i cs, Row (VInt (Z.of_nat i)) cs) rs.

Fixpoint assoc (m : list (string * string)) (c : string) : option string :=
  match m with
  | [] => None
  | (k, v) :: m => if decide (k = c) then Some v else assoc m c
  end.

(** [df.rename(columns=m)]: a new table; labels absent from [m] are kept *)
Definition rename (m : list (string * string)) (df : DataFrame) : DataFrame :=
  Frame (index_name df) (fmap (λ c, default c (assoc m c)) (columns df)) (rows df).

(** [df[name]] *)
Definition get_col (name : string) (df : DataFrame) : result (list value) :=
  i ← col_pos name df; Ok (fmap (cell i) (rows df)).

(** [df[name] = vals]: the column is overwritten, or appended when the
    label is new *)
Definition set_col (name : string) (vals : list value) (df : DataFrame)
  : result DataFrame :=
  if decide (length vals = nrows df) then
    Ok match index_of name (columns df) with
       | Some i =>
           Frame (index_name df) (columns df)
             (zip_with (λ r v, Row (label r) (<[i := v]> (cells r))) (rows df) vals)
       | None =>
           Frame (index_name df) (columns df ++ [name])
             (zip_with (λ r v, Row (label r) (cells r ++ [v])) (rows df) vals)
       end
  else Err ValueError.

(** [series.str.zfill(width)] *)
Definition str_zfill (width : nat) (col : list value) : list value :=
  fmap (λ v, match v with VStr s => VStr (zfill width s) | _ => VNull end) col.

Inductive how := Left | Inner.

(** labels present on both sides of a merge get a suffix *)
Definition suffix_cols (sfx : string) (other cols : list string) : list string :=
  fmap (λ c, if decide (c ∈ other) then c +:+ sfx else c) cols.

(** the rows of [right] whose key cell is [k]; NaN keys match each other *)
Definition matches (ri : nat) (k : value) (right : list row) : list row :=
  filter (λ r, cell ri r = k) right.

Definition join_row (h : how) (nr li ri : nat) (right : list row) (l : row)
  : list (list value) :=
  match matches ri (cell li l) right with
  | [] =>
      match h with
      | Left => [cells l ++ replicate nr VNull]
      | Inner => []
      end
  | ms => fmap (λ r, cells l ++ cells r) ms
  end.

(** [left.merge(right, left_on=.., right_on=.., how=..)] for two different
    key labels, as at the three call sites *)
Definition merge (left right : DataFrame) (left_on right_on : string) (h : how)
  : result DataFrame :=
  li ← col_pos left_on left;
  ri ← col_pos right_on right;
  Ok (Frame None
        (suffix_cols "_x" (columns right) (columns left)
           ++ suffix_cols "_y" (columns left) (columns right))
        (reindex (rows left ≫= join_row h (length (columns right)) li ri (rows right)))).

(** [df[[n1, ..., nk]]] *)
Definition select (names : list string) (df : DataFrame) : result DataFrame :=
  ps ← mapM (λ n, col_pos n df) names;
  Ok (Frame (index_name df) names
        (fmap (λ r, Row (label r) (fmap (λ i, cell i r) ps)) (rows df))).

Definition complete (r : row) : bool := forallb (λ v, negb (isna v)) (cells r).

(** [df.dropna()]: the rows without any missing cell, with their labels *)
Definition dropna (df : DataFrame) : DataFrame :=
  Frame (index_name df) (columns df) (filter (λ r, complete r) (rows df)).

(** element-wise [+] of two cells *)
Definition cell_add (a b : value) : result value :=
  match a, b with
  | VInt x, VInt y => Ok (VInt (x + y))
  | VStr s, VStr t => Ok (VStr (s +:+ t))
  | _, _ =>
      match as_float a, as_float b with
      | Some x, Some y => Ok (of_float (SFadd prec emax x y))
      | _, _ => Err TypeError
      end
  end.

(** element-wise [/] (true division) of two cells *)
Definition cell_div (a b : value) : result value :=
  match as_float a, as_float b with
  | Some x, Some y => Ok (of_float (SFdiv prec emax x y))
  | _, _ => Err TypeError
  end.

Definition series_add (xs ys : list value) : result (list value) :=
  mapM (λ p, cell_add p.1 p.2) (zip xs ys).

Definition series_div (xs ys : list value) : result (list value) :=
  mapM (λ p, cell_div p.1 p.2) (zip xs ys).

Fixpoint fold_add (acc : value) (vs : list value) : result value :=
  match vs with
  | [] => Ok acc
  | v :: vs => acc' ← cell_add acc v; fold_add acc' vs
  end.

(** the sum of a group: missing cells are skipped, an empty sum is 0 *)
Definition sum_cells (vs : list value) : result value :=
  match filter (λ v, negb (isna v)) vs with
  | [] => Ok (VInt 0)
  | v :: vs => fold_add v vs
  end.

Definition key_of (kpos : list nat) (r : row) : list value :=
  fmap (λ i, cell i r) kpos.

Definition key_le (k1 k2 : list value) : Prop := key_leb k1 k2.

(** the rows that take part in a [groupby]: those without a missing key *)
Definition keyed_rows (kpos : list nat) (rs : list row) : list row :=
  filter (λ r, forallb (λ v, negb (isna v)) (key_of kpos r)) rs.

(** the group keys: distinct, sorted *)
Definition group_keys (kpos : list nat) (rs : list row) : list (list value) :=
  merge_sort key_le (remove_dups (fmap (key_of kpos) (keyed_rows kpos rs))).

Definition group (kpos : list nat) (k : list value) (rs : list row) : list row :=
  filter (λ r, key_of kpos r = k) (keyed_rows kpos rs).

(** [df.groupby(keys, as_index=False)[vals].sum()] *)
Definition groupby_sum (keys vals : list string) (df : DataFrame)
  : result DataFrame :=
  kpos ← mapM (λ n, col_pos n df) keys;
  vpos ← mapM (λ n, col_pos n df) vals;
  rs ← mapM (λ k,
         sums ← mapM (λ i, sum_cells (fmap (cell i) (group kpos k (rows df)))) vpos;
         Ok (k ++ sums))
       (group_keys kpos (rows df));
  Ok (Frame None (keys ++ vals) (reindex rs)).

(** [df.set_index(name)]: the column becomes the index *)
Definition set_index (name : string) (df : DataFrame) : result DataFrame :=
  i ← col_pos name df;
  Ok (Frame (Some name) (delete i (columns df))
        (fmap (λ r, Row (cell i r) (delete i (cells r))) (rows df))).

(** ** Objects and references *)

Definition loc := positive.
Abbreviation heap := (gmap loc DataFrame).

(** computations that read and update the heap and may raise *)
Definition M (A : Type) : Type := heap → result (A * heap).

Global Instance M_ret : MRet M := λ A x h, Ok (x, h).
Global Instance M_bind : MBind M := λ A B f m h,
  match m h with
  | Ok (x, h') => f x h'
  | Err e => Err e
  end.

Definition deref (l : loc) : M DataFrame := λ h,
  match h !! l with
  | Some df => Ok (df, h)
  | None => Err NoObject
  end.

Definition assign (l : loc) (df : DataFrame) : M unit := λ h,
  Ok (tt, <[l := df]> h).

Definition lift {A : Type} (r : result A) : M A := λ h,
  match r with
  | Ok x => Ok (x, h)
  | Err e => Err e
  end.

(** [obj[name]] on the object behind a reference *)
Definition getitem (l : loc) (name : string) : M (list value) :=
  df ← deref l; lift (get_col name df).

(** [obj[name] = vals]: the object behind the reference is updated in place *)
Definition setitem (l : loc) (name : string) (vals : list value) : M unit :=
  df ← deref l; df' ← lift (set_col name vals df); assign l df'.


(** ** The program *)

Section Pipeline.

(** [str] of a float; the text Python prints for a float is not part
    of the program *)
Variable repr_float : spec_float → string.

(** [str(v)] *)
Definition to_str (v : value) : string :=
  match v with
  | VNull => "nan"
  | VInt n => pretty n
  | VFloat f => repr_float f
  | VStr s => s
  end.

(** [series.astype(str)] *)
Definition astype_str (col : list value) : list value :=
  fmap (λ v, VStr (to_str v)) col.

(** the key normalisation both joiners apply to a department code *)
Definition normalize (v : value) : value := VStr (zfill 2 (to_str v)).

Definition merge_regions_and_departments (regions departments : loc)
  : M DataFrame :=
  regions0 ← deref regions;
  departments0 ← deref departments;
  let regions1 := rename [("code", "code_reg"); ("name", "name_reg")] regions0 in
  let departments1 :=
    rename [("code", "code_dep"); ("name", "name_dep")] departments0 in
  code_dep ← lift (get_col "code_dep" departments1);
  departments2 ←
    lift (set_col "code_dep" (str_zfill 2 (astype_str code_dep)) departments1);
  merged ← lift (merge departments2 regions1 "region_code" "code_reg" Left);
  lift (select ["code_reg"; "name_reg"; "code_dep"; "name_dep"] merged).

Definition merge_referendum_and_areas (referendum regions_and_departments : loc)
  : M DataFrame :=
  department_code ← getitem referendum "Department code";
  _ ← setitem referendum "Department code"
        (str_zfill 2 (astype_str department_code));
  code_dep ← getitem regions_and_departments "code_dep";
  _ ← setitem regions_and_departments "code_dep"
        (str_zfill 2 (astype_str code_dep));
  left ← deref referendum;
  right ← deref regions_and_departments;
  merged ← lift (merge left right "Department code" "code_dep" Inner);
  mret (dropna merged).

Definition compute_referendum_result_by_regions (referendum_and_areas : loc)
  : M DataFrame :=
  df ← deref referendum_and_areas;
  grouped ← lift (groupby_sum ["code_reg"; "name_reg"]
                    ["Registered"; "Abstentions"; "Null"; "Choice A"; "Choice B"]
                    df);
  grouped ← lift (set_index "code_reg" grouped);
  lift (select ["name_reg"; "Registered"; "Abstentions"; "Null";
                "Choice A"; "Choice B"] grouped).

(** [gdf] is the table read from [data/regions.geojson]. *)
Definition plot_referendum_map (gdf : DataFrame)
    (referendum_result_by_regions : loc) : M DataFrame :=
  results ← deref referendum_result_by_regions;
  gdf_merged ← lift (merge gdf results "nom" "name_reg" Left);
  choice_a ← lift (get_col "Choice A" gdf_merged);
  choice_b ← lift (get_col "Choice B" gdf_merged);
  total_votes ← lift (series_add choice_a choice_b);
  ratio ← lift (series_div choice_a total_votes);
  lift (set_col "ratio" ratio gdf_merged).





(** ** The vocabulary of the statements *)

(** distinct column labels, one cell per column in every row *)
Definition wf (df : DataFrame) : Prop :=
  NoDup (columns df) ∧
  Forall (λ r, length (cells r) = length (columns df)) (rows df).

Global Instance wf_dec df : Decision (wf df).
Proof. unfold wf. apply _. Defined.

(** the cell of row [r] of table [df] under the label [name] *)
Definition field (df : DataFrame) (name : string) (r : row) : value :=
  match index_of name (columns df) with
  | Some i => cell i r
  | None => VNull
  end.

(** the cells of a column, top to bottom *)
Definition column (name : string) (df : DataFrame) : list value :=
  fmap (field df name) (rows df).

(** a computation that leaves the heap as it found it *)
Definition readonly {A : Type} (m : M A) : Prop :=
  ∀ h x h', m h = Ok (x, h') → h' = h.

(** [ends_with sfx t]: the string [t] ends with [sfx] *)
Fixpoint ends_with (sfx t : string) : bool :=
  bool_decide (t = sfx) ||
  match t with
  | EmptyString => false
  | String _ t' => ends_with sfx t'
  end.

(** *** The tables of the Area Resolver *)

Definition out_names : list string :=
  ["code_reg"; "name_reg"; "code_dep"; "name_dep"].

(** The region table carries [code] and [name], the department table
    [code], [name] and [region_code]; the four labels of the result are not
    yet in use in either table. *)
Definition resolver_schema (R D : DataFrame) : Prop :=
  "code" ∈ columns R ∧ "name" ∈ columns R ∧
  "code" ∈ columns D ∧ "name" ∈ columns D ∧ "region_code" ∈ columns D ∧
  Forall (λ n, (n ∉ columns R) ∧ (n ∉ columns D)) out_names.

Global Instance resolver_schema_dec R D : Decision (resolver_schema R D).
Proof. unfold resolver_schema. apply _. Defined.



(** *** The tables of the Ballot Joiner *)

(** the row [r] with its cell at position [i] normalised *)
Definition normalize_at (i : nat) (r : row) : row :=
  Row (label r) (<[i := normalize (cell i r)]> (cells r)).

(** the table [df] with the column [name] normalised *)
Definition normalize_col (name : string) (df : DataFrame) : DataFrame :=
  match index_of name (columns df) with
  | Some i => Frame (index_name df) (columns df) (normalize_at i <$> rows df)
  | None => df
  end.

(** a row of cells without any missing value *)
Definition null_free (cs : list value) : Prop :=
  forallb (λ v, negb (isna v)) cs.

(** the joined rows of the ballot row [b]: one per area row with its code *)
Definition join_spec (B A : DataFrame) (b : row) : list (list value) :=
  (λ a, cells b ++ cells a) <$>
  filter (λ a, field A "code_dep" a = field B "Department code" b) (rows A).


(** *** The tables of the Regional Aggregator *)

Definition count_names : list string :=
  ["Registered"; "Abstentions"; "Null"; "Choice A"; "Choice B"].

(** a resolved ballot table: region code and name, and the five counts *)
Definition aggregator_schema (T : DataFrame) : Prop :=
  Forall (λ n, n ∈ columns T) ("code_reg" :: "name_reg" :: count_names).

Global Instance aggregator_schema_dec T : Decision (aggregator_schema T).
Proof. unfold aggregator_schema. apply _. Defined.

Definition is_int (v : value) : bool :=
  match v with
  | VInt _ => true
  | _ => false
  end.

(** every count of the table is an integer *)
Definition integer_counts (T : DataFrame) : Prop :=
  Forall (λ r, Forall (λ c, is_int (field T c r)) count_names) (rows T).

Global Instance integer_counts_dec T : Decision (integer_counts T).
Proof. unfold integer_counts. apply _. Defined.

(** every region code comes with one region name *)
Definition one_name_per_code (T : DataFrame) : Prop :=
  ∀ r1 r2, r1 ∈ rows T → r2 ∈ rows T →
    field T "code_reg" r1 = field T "code_reg" r2 →
    field T "name_reg" r1 = field T "name_reg" r2.

Global Instance one_name_per_code_dec T : Decision (one_name_per_code T).
Proof.
  refine (match decide (Forall (λ r1, Forall (λ r2,
            field T "code_reg" r1 = field T "code_reg" r2 →
            field T "name_reg" r1 = field T "name_reg" r2) (rows T)) (rows T))
          with
          | left Hf => left _
          | right Hf => right _
          end); unfold one_name_per_code.
  - intros r1 r2 H1 H2. rewrite Forall_forall in Hf.
    specialize (Hf r1 H1). rewrite Forall_forall in Hf. by apply Hf.
  - intros H. apply Hf. apply Forall_forall. intros r1 H1.
    apply Forall_forall. intros r2 H2. by apply H.
Defined.

(** [before R x y]: a sort that decides with [R] may put [x] before [y] *)
Definition before {A : Type} (R : relation A) : relation A :=
  λ x y, R x y ∨ ¬ R y x.

(** a run of the merge sort that is pending, or none *)
Definition sorted_run {A : Type} (R : relation A) (o : option (list A))
  : Prop :=
  match o with
  | Some l => Sorted R l
  | None => True
  end.

Definition is_str (v : value) : bool :=
  match v with
  | VStr _ => true
  | _ => false
  end.

(** every region code and every region name is a text, or is missing *)
Definition text_keys (T : DataFrame) : Prop :=
  Forall (λ r, (is_str (field T "code_reg" r) || isna (field T "code_reg" r))
               ∧ (is_str (field T "name_reg" r) || isna (field T "name_reg" r)))
    (rows T).

Global Instance text_keys_dec T : Decision (text_keys T).
Proof. unfold text_keys. apply _. Defined.

(** the integer an integer cell holds *)
Definition int_of (v : value) : Z :=
  match v with
  | VInt n => n
  | _ => 0
  end.

Definition Zsum (l : list Z) : Z := foldr Z.add 0 l.


(** *** The tables of the renderer *)

(** a cell that float arithmetic accepts: a number or the missing value *)
Definition numeric (v : value) : bool :=
  match v with
  | VStr _ => false
  | _ => true
  end.

(** the ratio the renderer computes from the two choice cells of a row:
    [a / (a + b)] *)
Definition ratio_cell (a b : value) : result value :=
  total_votes ← cell_add a b; cell_div a total_votes.


(** The geometry table carries [nom], the region results [name_reg] and
    the two choice columns; the geometry table does not use the labels of
    the choice columns, and [ratio] is a new label. *)
Definition renderer_schema (gdf R : DataFrame) : Prop :=
  "nom" ∈ columns gdf ∧ "name_reg" ∈ columns R ∧
  "Choice A" ∈ columns R ∧ "Choice B" ∈ columns R ∧
  ("Choice A" ∉ columns gdf) ∧ ("Choice B" ∉ columns gdf) ∧
  ("ratio" ∉ columns gdf) ∧ ("ratio" ∉ columns R).

Global Instance renderer_schema_dec gdf R : Decision (renderer_schema gdf R).
Proof. unfold renderer_schema. apply _. Defined.

(** the two choice columns of the region results hold numbers or nulls *)
Definition numeric_choices (R : DataFrame) : Prop :=
  Forall (λ r, numeric (field R "Choice A" r) ∧ numeric (field R "Choice B" r))
    (rows R).

Global Instance numeric_choices_dec R : Decision (numeric_choices R).
Proof. unfold numeric_choices. apply _. Defined.

(** the rows of the left merge of the geometries with the region results *)
Definition geo_join (gdf R : DataFrame) (g : row) : list (list value) :=
  match filter (λ r, field R "name_reg" r = field gdf "nom" g) (rows R) with
  | [] => [cells g ++ replicate (length (columns R)) VNull]
  | ms => (λ r, cells g ++ cells r) <$> ms
  end.

(** *** The tables of the script *)

(** The ballot table carries the department code and the five counts, and
    none of the four labels of the area table. *)
Definition ballot_schema (B : DataFrame) : Prop :=
  "Department code" ∈ columns B ∧
  Forall (λ n, n ∈ columns B) count_names ∧
  Forall (λ n, n ∉ columns B) out_names.

Global Instance ballot_schema_dec B : Decision (ballot_schema B).
Proof. unfold ballot_schema. apply _. Defined.

(** The geometry table carries [nom], and none of the labels of the region
    results nor [ratio]. *)
Definition geometry_schema (G : DataFrame) : Prop :=
  "nom" ∈ columns G ∧
  Forall (λ n, n ∉ columns G) ("ratio" :: "name_reg" :: count_names).

Global Instance geometry_schema_dec G : Decision (geometry_schema G).
Proof. unfold geometry_schema. apply _. Defined.

(** the two choice counts of every row are non-negative integers *)
Definition counted_choices (B : DataFrame) : Prop :=
  Forall (λ r, (0 ≤ int_of (field B "Choice A" r))%Z
               ∧ (0 ≤ int_of (field B "Choice B" r))%Z) (rows B).

Global Instance counted_choices_dec B : Decision (counted_choices B).
Proof. unfold counted_choices. apply _. Defined.


(** no cell of the ballot table is missing, the department code apart *)
Definition complete_ballots (B : DataFrame) : Prop :=
  Forall (λ b, Forall (λ c, c ≠ "Department code" → isna (field B c b) = false)
                 (columns B)) (rows B).

Global Instance complete_ballots_dec B : Decision (complete_ballots B).
Proof. unfold complete_ballots. apply _. Defined.

(** every ballot row names a department of the department table, up to the
    normalisation of the codes *)
Definition known_departments (B D : DataFrame) : Prop :=
  Forall (λ b, normalize (field B "Department code" b)
               ∈ normalize <$> column "code" D) (rows B).

Global Instance known_departments_dec B D : Decision (known_departments B D).
Proof. unfold known_departments. apply _. Defined.

(** every department names a region of the region table, and no code or
    name of a region, and no name of a department, is missing *)
Definition known_regions (R D : DataFrame) : Prop :=
  Forall (λ d, field D "region_code" d ∈ column "code" R
               ∧ isna (field D "name" d) = false) (rows D) ∧
  Forall (λ r, isna (field R "code" r) = false
               ∧ isna (field R "name" r) = false) (rows R).

Global Instance known_regions_dec R D : Decision (known_regions R D).
Proof. unfold known_regions. apply _. Defined.

(** *** Binary64 values *)




(** ** Sample tables *)

(** the sample tables hold no float: any rendering of floats will do *)
Definition sample_repr (f : spec_float) : string := "nan".

(** a table as [read_csv] returns it, with a fresh index *)
Definition table (cols : list string) (rs : list (list value)) : DataFrame :=
  Frame None cols (reindex rs).

Definition ballot_columns : list string :=
  ["Department code"; "Registered"; "Abstentions"; "Null";
   "Choice A"; "Choice B"].




(** three departments with their regions *)
Definition sample_areas : DataFrame :=
  table out_names
    [[VStr "84"; VStr "Auvergne"; VStr "01"; VStr "Ain"];
     [VStr "84"; VStr "Auvergne"; VStr "07"; VStr "Ardeche"];
     [VStr "01"; VStr "Guadeloupe"; VStr "971"; VStr "Guadeloupe"]].

(** five ballot rows: four name one of the three departments, "ZZ" names
    none *)
Definition sample_ballots : DataFrame :=
  table ballot_columns
    [[VInt 1; VInt 100; VInt 10; VInt 1; VInt 40; VInt 49];
     [VStr "07"; VInt 200; VInt 20; VInt 2; VInt 100; VInt 78];
     [VStr "971"; VInt 50; VInt 5; VInt 0; VInt 25; VInt 20];
     [VStr "7"; VInt 30; VInt 3; VInt 0; VInt 17; VInt 10];
     [VStr "ZZ"; VInt 60; VInt 6; VInt 1; VInt 30; VInt 23]].

Definition sample_heap_joiner : heap :=
  <[4%positive := sample_ballots]> (<[3%positive := sample_areas]> ∅).




(** the sample ballots joined with the sample areas *)
Definition sample_resolved : DataFrame :=
  table (ballot_columns ++ out_names)
    [[VStr "01"; VInt 100; VInt 10; VInt 1; VInt 40; VInt 49;
      VStr "84"; VStr "Auvergne"; VStr "01"; VStr "Ain"];
     [VStr "07"; VInt 200; VInt 20; VInt 2; VInt 100; VInt 78;
      VStr "84"; VStr "Auvergne"; VStr "07"; VStr "Ardeche"];
     [VStr "971"; VInt 50; VInt 5; VInt 0; VInt 25; VInt 20;
      VStr "01"; VStr "Guadeloupe"; VStr "971"; VStr "Guadeloupe"];
     [VStr "07"; VInt 30; VInt 3; VInt 0; VInt 17; VInt 10;
      VStr "84"; VStr "Auvergne"; VStr "07"; VStr "Ardeche"]].

Definition sample_heap_aggregator : heap := <[5%positive := sample_resolved]> ∅.


(** geometries, as the text of their boundary: one region with results,
    one without *)
Definition sample_geometries : DataFrame :=
  table ["code"; "nom"; "geometry"]
    [[VStr "84"; VStr "Auvergne"; VStr "POLYGON ((4 45, 5 45, 5 46, 4 45))"];
     [VStr "53"; VStr "Bretagne"; VStr "POLYGON ((-3 48, -2 48, -2 49, -3 48))"]].









(** ballots of a department that the sample areas do not know *)
Definition unmatched_ballots : DataFrame :=
  table ballot_columns
    [[VStr "ZZ"; VInt 60; VInt 6; VInt 1; VInt 30; VInt 23]].

Definition unmatched_heap : heap :=
  <[4%positive := unmatched_ballots]> (<[3%positive := sample_areas]> ∅).

(** the four sample ballot rows that name a sample department *)
Definition full_ballots : DataFrame :=
  table ballot_columns
    [[VInt 1; VInt 100; VInt 10; VInt 1; VInt 40; VInt 49];
     [VStr "07"; VInt 200; VInt 20; VInt 2; VInt 100; VInt 78];
     [VStr "971"; VInt 50; VInt 5; VInt 0; VInt 25; VInt 20];
     [VStr "7"; VInt 30; VInt 3; VInt 0; VInt 17; VInt 10]].

Definition full_heap_joiner : heap :=
  <[4%positive := full_ballots]> (<[3%positive := sample_areas]> ∅).


(** region results with a text among the counts *)
Definition text_results : DataFrame :=
  Frame (Some "code_reg") ("name_reg" :: count_names)
    [Row (VStr "84") [VStr "Auvergne"; VInt 330; VInt 33; VInt 3;
                      VStr "157"; VInt 137]].

Definition text_heap : heap := <[6%positive := text_results]> ∅.


(** ** Basic facts *)

Lemma index_of_Some name cols i :
  index_of name cols = Some i → cols !! i = Some name.
Proof.
  revert i. induction cols as [|c cols IH]; intros i; simpl; [done|].
  case_decide; [intros [= <-]; by subst|].
  destruct (index_of name cols) eqn:E; simpl; [|done].
  intros [= <-]. by apply IH.
Qed.

Lemma index_of_lt name cols i :
  index_of name cols = Some i → (i < length cols)%nat.
Proof. intros H. eapply lookup_lt_Some, index_of_Some, H. Qed.

Lemma index_of_None name cols : index_of name cols = None ↔ name ∉ cols.
Proof.
  induction cols as [|c cols IH]; simpl.
  - split; [intros _; apply not_elem_of_nil|done].
  - case_decide; subst.
    + split; [done|]. intros []. apply elem_of_cons; auto.
    + rewrite not_elem_of_cons. destruct (index_of name cols); simpl.
      * split; [done|]. intros [_ H']. by apply IH in H'.
      * split; [|done]. intros _. split; [congruence|]. by apply IH.
Qed.

Lemma index_of_elem name cols : name ∈ cols → is_Some (index_of name cols).
Proof.
  intros H. destruct (index_of name cols) eqn:E; [eauto|].
  by apply index_of_None in E.
Qed.

Lemma index_of_inj cols n1 n2 i :
  index_of n1 cols = Some i → index_of n2 cols = Some i → n1 = n2.
Proof.
  intros H1%index_of_Some H2%index_of_Some. congruence.
Qed.

(** a relabelling that sends exactly [old] to [new] moves the position of
    [old] to [new] *)
Lemma index_of_map (f : string → string) old new cols :
  (∀ c, c ∈ cols → f c = new ↔ c = old) →
  index_of new (fmap f cols) = index_of old cols.
Proof.
  induction cols as [|c cols IH]; intros Hf; csimpl; [done|].
  assert (f c = new ↔ c = old) as Hc by (apply Hf; left).
  rewrite IH by (intros; apply Hf; by right).
  repeat case_decide; try done; tauto.
Qed.

Lemma index_of_app_l name l1 l2 i :
  index_of name l1 = Some i → index_of name (l1 ++ l2) = Some i.
Proof.
  revert i. induction l1 as [|c l1 IH]; intros i; simpl; [done|].
  case_decide; [done|].
  destruct (index_of name l1) eqn:E; simpl; [|done].
  intros [= <-]. by rewrite (IH _ eq_refl).
Qed.

Lemma index_of_app_r name l1 l2 :
  name ∉ l1 →
  index_of name (l1 ++ l2) = (λ i, (length l1 + i)%nat) <$> index_of name l2.
Proof.
  induction l1 as [|c l1 IH]; intros Hn; simpl.
  - by destruct (index_of name l2).
  - apply not_elem_of_cons in Hn as [Hc Hn]. case_decide; [congruence|].
    rewrite IH by done. by destruct (index_of name l2).
Qed.

Lemma cell_insert_eq i v l cs :
  (i < length cs)%nat → cell i (Row l (<[i := v]> cs)) = v.
Proof. intros H. unfold cell; simpl. by rewrite list_lookup_insert_eq. Qed.

Lemma cell_insert_ne i j v l cs :
  i ≠ j → cell j (Row l (<[i := v]> cs)) = cell j (Row l cs).
Proof. intros H. unfold cell; simpl. by rewrite list_lookup_insert_ne. Qed.

Lemma cells_reindex rs : cells <$> reindex rs = rs.
Proof.
  unfold reindex. rewrite fmap_imap.
  rewrite (imap_ext _ (const id)) by done.
  by rewrite imap_const, list_fmap_id.
Qed.


Lemma ends_with_app sfx s : ends_with sfx (s +:+ sfx) = true.
Proof.
  induction s as [|a s IH]; simpl.
  - destruct sfx; simpl; [done|]. by rewrite bool_decide_eq_true_2.
  - rewrite IH. apply orb_true_r.
Qed.

(** a suffixed label differs from any label that does not end with the
    suffix *)
Lemma suffixed_ne sfx c t : ends_with sfx t = false → c +:+ sfx ≠ t.
Proof. intros H <-. by rewrite ends_with_app in H. Qed.

Lemma suffix_cols_index sfx other cols name :
  ends_with sfx name = false → name ∉ other →
  index_of name (suffix_cols sfx other cols) = index_of name cols.
Proof.
  intros Hs Ho. apply index_of_map. intros c _. case_decide.
  - split; [intros H'; by apply suffixed_ne in H'|]. intros ->. done.
  - done.
Qed.

Lemma suffix_cols_absent sfx other cols name :
  ends_with sfx name = false → name ∉ cols → name ∉ suffix_cols sfx other cols.
Proof.
  intros Hs Hn [c [Hc Hin]]%list_elem_of_fmap. case_decide; subst.
  - by rewrite ends_with_app in Hs.
  - done.
Qed.

Lemma length_suffix_cols sfx other cols :
  length (suffix_cols sfx other cols) = length cols.
Proof. apply length_fmap. Qed.

Lemma col_pos_Ok name df i :
  index_of name (columns df) = Some i → col_pos name df = Ok i.
Proof. unfold col_pos. by intros ->. Qed.

Lemma get_col_Ok name df i :
  index_of name (columns df) = Some i →
  get_col name df = Ok (cell i <$> rows df).
Proof. intros H. unfold get_col. by rewrite (col_pos_Ok _ _ _ H). Qed.

Lemma normalize_series col : str_zfill 2 (astype_str col) = normalize <$> col.
Proof.
  unfold str_zfill, astype_str. rewrite <-list_fmap_compose.
  by apply list_fmap_ext.
Qed.

(** overwriting a column with a function of itself *)
Lemma set_col_fmap name df i (f : value → value) :
  index_of name (columns df) = Some i →
  set_col name (f <$> (cell i <$> rows df)) df
  = Ok (Frame (index_name df) (columns df)
          ((λ r, Row (label r) (<[i := f (cell i r)]> (cells r))) <$> rows df)).
Proof.
  intros H. unfold set_col, nrows. rewrite !length_fmap.
  rewrite decide_True by done. rewrite H. do 2 f_equal.
  rewrite <-list_fmap_compose, zip_with_fmap_r, zip_with_diag. done.
Qed.

Lemma merge_Ok left right left_on right_on h li ri :
  index_of left_on (columns left) = Some li →
  index_of right_on (columns right) = Some ri →
  merge left right left_on right_on h
  = Ok (Frame None
          (suffix_cols "_x" (columns right) (columns left)
             ++ suffix_cols "_y" (columns left) (columns right))
          (reindex (rows left ≫=
                      join_row h (length (columns right)) li ri (rows right)))).
Proof.
  intros Hl Hr. unfold merge.
  by rewrite (col_pos_Ok _ _ _ Hl), (col_pos_Ok _ _ _ Hr).
Qed.


(** the position of a label of the right table in a merge *)
Lemma merged_index_r name left right i :
  ends_with "_x" name = false → ends_with "_y" name = false →
  name ∉ left → index_of name right = Some i →
  index_of name (suffix_cols "_x" right left ++ suffix_cols "_y" left right)
  = Some (length left + i)%nat.
Proof.
  intros Hx Hy Hl Hi. rewrite index_of_app_r.
  - rewrite suffix_cols_index, Hi by done. simpl.
    by rewrite length_suffix_cols.
  - by apply suffix_cols_absent.
Qed.



Lemma bind_fmap {A B C} (g : A → B) (f : B → list C) (l : list A) :
  (g <$> l) ≫= f = l ≫= (f ∘ g).
Proof.
  induction l as [|x l IH]; [done|].
  by rewrite fmap_cons, !bind_cons, IH.
Qed.

Lemma bind_ext_in {A B} (f g : A → list B) (l : list A) :
  (∀ x, x ∈ l → f x = g x) → l ≫= f = l ≫= g.
Proof.
  induction l as [|x l IH]; intros H; [done|].
  rewrite !bind_cons, H, IH; [done| |left].
  intros; apply H; by right.
Qed.

Lemma filter_ext_in {A} (P Q : A → Prop) `{∀ x, Decision (P x)}
    `{∀ x, Decision (Q x)} (l : list A) :
  (∀ x, x ∈ l → P x ↔ Q x) → filter P l = filter Q l.
Proof.
  induction l as [|x l IH]; intros HPQ; [done|].
  rewrite !filter_cons. rewrite IH by (intros; apply HPQ; by right).
  assert (P x ↔ Q x) by (apply HPQ; left).
  repeat case_decide; try done; tauto.
Qed.




(** *** Stepping through a computation *)

Lemma bind_deref {A} (l : loc) (k : DataFrame → M A) h df :
  h !! l = Some df → (deref l ≫= k) h = k df h.
Proof. intros H. unfold mbind, M_bind, deref. by rewrite H. Qed.

Lemma bind_lift {A B} (r : result A) (k : A → M B) h x :
  r = Ok x → (lift r ≫= k) h = k x h.
Proof. by intros ->. Qed.

Lemma bind_assign {A} (l : loc) df (k : unit → M A) h :
  (assign l df ≫= k) h = k tt (<[l := df]> h).
Proof. done. Qed.

Lemma lift_Ok {A} (r : result A) h x : r = Ok x → lift r h = Ok (x, h).
Proof. by intros ->. Qed.

Lemma bind_assoc_M {A B C} (m : M A) (f : A → M B) (g : B → M C) h :
  ((m ≫= f) ≫= g) h = (m ≫= λ x, f x ≫= g) h.
Proof.
  unfold mbind, M_bind. destruct (m h) as [[x h']|e]; done.
Qed.

Lemma mapM_Ok {A B} (f : A → result B) (l : list A) (k : list B) :
  Forall2 (λ x y, f x = Ok y) l k → mapM f l = Ok k.
Proof.
  induction 1 as [|x y l k Hxy _ IH]; [done|].
  simpl. rewrite Hxy. simpl. by rewrite IH.
Qed.

Lemma select_Ok names df ps :
  Forall2 (λ n p, index_of n (columns df) = Some p) names ps →
  select names df
  = Ok (Frame (index_name df) names
          ((λ r, Row (label r) ((λ i, cell i r) <$> ps)) <$> rows df)).
Proof.
  intros H. unfold select. rewrite (mapM_Ok _ _ ps); [done|].
  eapply Forall2_impl; [exact H|]. intros n p Hp. by apply col_pos_Ok.
Qed.

Lemma matches_field (R : DataFrame) name j k :
  index_of name (columns R) = Some j →
  matches j k (rows R) = filter (λ r, field R name r = k) (rows R).
Proof.
  intros Hj. unfold matches. apply filter_ext_in. intros r _.
  unfold field. by rewrite Hj.
Qed.

(** *** The Area Resolver, row by row *)


(** *** Computations that only read *)

Lemma readonly_ret {A} (x : A) : readonly (mret x).
Proof. intros h y h'. by intros [= _ ->]. Qed.

Lemma readonly_deref l : readonly (deref l).
Proof.
  intros h x h'. unfold deref. destruct (h !! l); [|done]. by intros [= _ ->].
Qed.

Lemma readonly_lift {A} (r : result A) : readonly (lift r).
Proof. intros h x h'. destruct r; [|done]. by intros [= _ ->]. Qed.

Lemma readonly_bind {A B} (m : M A) (k : A → M B) :
  readonly m → (∀ x, readonly (k x)) → readonly (m ≫= k).
Proof.
  intros Hm Hk h y h'. unfold mbind, M_bind.
  destruct (m h) as [[x h1]|e] eqn:E; [|done].
  intros Hy. apply Hm in E as ->. by apply Hk in Hy.
Qed.

Ltac readonly_steps :=
  repeat first
    [ apply readonly_ret | apply readonly_deref | apply readonly_lift
    | apply readonly_bind; [|intros ?] ].

Lemma resolver_readonly regions departments :
  readonly (merge_regions_and_departments regions departments).
Proof. unfold merge_regions_and_departments. readonly_steps. Qed.

Lemma aggregator_readonly l :
  readonly (compute_referendum_result_by_regions l).
Proof. unfold compute_referendum_result_by_regions. readonly_steps. Qed.

Lemma renderer_readonly gdf l : readonly (plot_referendum_map gdf l).
Proof. unfold plot_referendum_map. readonly_steps. Qed.

(** *** Counting the rows of a join *)


Lemma filter_none {A} (P : A → Prop) `{∀ x, Decision (P x)} (l : list A) :
  (∀ x, x ∈ l → ¬ P x) → filter P l = [].
Proof.
  induction l as [|x l IH]; intros Hl; [done|].
  rewrite filter_cons_False by (apply Hl; left).
  apply IH. intros; apply Hl; by right.
Qed.

(** distinct keys: at most one row per key *)
Lemma NoDup_fmap_filter {A} (f : A → value) (k : value) (l : list A) :
  NoDup (f <$> l) → (length (filter (λ x, f x = k) l) ≤ 1)%nat.
Proof.
  induction l as [|x l IH]; [intros _; simpl; lia|].
  rewrite fmap_cons, NoDup_cons. intros [Hx Hl].
  rewrite filter_cons. case_decide as Hk; [|by apply IH].
  simpl. assert (filter (λ x, f x = k) l = []) as ->; [|done].
  apply filter_none. intros y Hy Hfy. apply Hx.
  apply list_elem_of_fmap. exists y. split; [congruence|done].
Qed.



(** *** Strings and the normalisation of a code *)

Example zfill_short : zfill 2 "1" = "01".
Proof. reflexivity. Qed.

Example zfill_wide : zfill 2 "971" = "971" ∧ zfill 2 "2A" = "2A".
Proof. by split. Qed.

Example zfill_sign : zfill 3 "-1" = "-01" ∧ zfill 2 "" = "00".
Proof. by split. Qed.

Lemma length_app_str s1 s2 :
  String.length (s1 +:+ s2) = (String.length s1 + String.length s2)%nat.
Proof. induction s1 as [|a s1 IH]; simpl; [done|]. by rewrite IH. Qed.

Lemma length_string_rep c n : String.length (string_rep c n) = n.
Proof. induction n as [|n IH]; simpl; [done|]. by rewrite IH. Qed.

Lemma zfill_id width s : (width ≤ String.length s)%nat → zfill width s = s.
Proof.
  intros H. unfold zfill. destruct (Nat.leb_spec width (String.length s)); [done|lia].
Qed.

Lemma length_zfill width s : (width ≤ String.length (zfill width s))%nat.
Proof.
  unfold zfill. destruct (Nat.leb_spec width (String.length s)) as [|Hlt]; [done|].
  destruct s as [|c s]; simpl in *.
  - rewrite length_string_rep. lia.
  - destruct (is_sign c); simpl;
      rewrite length_app_str, length_string_rep; simpl; lia.
Qed.










(** ** The Area Resolver: claims *)




(** C8. Calling the Area Resolver twice on the same arguments gives the same
    table twice: the first call leaves the heap, and so its own arguments,
    as they were. *)
Theorem resolver_idempotent regions departments h :
  (x ← merge_regions_and_departments regions departments;
   y ← merge_regions_and_departments regions departments;
   mret (x, y)) h
  = (x ← merge_regions_and_departments regions departments;
     mret (x, x)) h.
Proof.
  unfold mbind at 1 3, M_bind.
  destruct (merge_regions_and_departments regions departments h)
    as [[x h']|e] eqn:E; [|done].
  pose proof (resolver_readonly _ _ _ _ _ E) as ->.
  unfold mbind, M_bind. by rewrite E.
Qed.


(** ** The Ballot Joiner *)

Lemma normalize_col_eq name df i :
  index_of name (columns df) = Some i →
  normalize_col name df
  = Frame (index_name df) (columns df) (normalize_at i <$> rows df).
Proof. unfold normalize_col. by intros ->. Qed.

(** reading a column, normalising it and writing it back, in place *)
Lemma normalize_step {A} (l : loc) (name : string) (k : unit → M A) h :
  (getitem l name ≫= λ c,
     setitem l name (str_zfill 2 (astype_str c)) ≫= k) h
  = match h !! l with
    | Some df =>
        match index_of name (columns df) with
        | Some _ => k tt (<[l := normalize_col name df]> h)
        | None => Err (KeyError name)
        end
    | None => Err NoObject
    end.
Proof.
  unfold getitem, setitem. rewrite !bind_assoc_M.
  destruct (h !! l) as [df|] eqn:Hl.
  - rewrite (bind_deref _ _ _ _ Hl).
    destruct (index_of name (columns df)) as [i|] eqn:Hi.
    + rewrite (bind_lift _ _ _ _ (get_col_Ok _ _ _ Hi)).
      rewrite !bind_assoc_M, (bind_deref _ _ _ _ Hl), normalize_series.
      rewrite !bind_assoc_M.
      rewrite (bind_lift _ _ _ _ (set_col_fmap _ _ _ normalize Hi)).
      rewrite bind_assign. by rewrite (normalize_col_eq _ _ _ Hi).
    + unfold mbind, M_bind, lift, get_col, col_pos. by rewrite Hi.
  - unfold mbind, M_bind, deref. by rewrite Hl.
Qed.

Lemma joiner_run ref rad h :
  merge_referendum_and_areas ref rad h
  = match h !! ref with
    | Some B =>
        match index_of "Department code" (columns B) with
        | Some _ =>
            let h1 := <[ref := normalize_col "Department code" B]> h in
            match h1 !! rad with
            | Some A =>
                match index_of "code_dep" (columns A) with
                | Some _ =>
                    let A' := normalize_col "code_dep" A in
                    let h2 := <[rad := A']> h1 in
                    match h2 !! ref with
                    | Some L =>
                        match merge L A' "Department code" "code_dep" Inner with
                        | Ok m => Ok (dropna m, h2)
                        | Err e => Err e
                        end
                    | None => Err NoObject
                    end
                | None => Err (KeyError "code_dep")
                end
            | None => Err NoObject
            end
        | None => Err (KeyError "Department code")
        end
    | None => Err NoObject
    end.
Proof.
  unfold merge_referendum_and_areas. rewrite normalize_step.
  destruct (h !! ref) as [B|]; [|done].
  destruct (index_of "Department code" (columns B)); [|done].
  rewrite normalize_step. cbn zeta.
  destruct (_ !! rad) as [A|]; [|done].
  destruct (index_of "code_dep" (columns A)); [|done].
  set (h2 := <[rad := _]> _).
  destruct (h2 !! ref) as [L|] eqn:HL.
  - rewrite (bind_deref _ _ _ _ HL).
    assert (h2 !! rad = Some (normalize_col "code_dep" A)) as HA
      by (subst h2; apply lookup_insert_eq).
    rewrite (bind_deref _ _ _ _ HA).
    unfold mbind, M_bind, lift.
    by destruct (merge L _ _ _ _).
  - unfold mbind, M_bind, deref. by rewrite HL.
Qed.

Lemma join_row_inner (B A : DataFrame) i j b :
  index_of "Department code" (columns B) = Some i →
  index_of "code_dep" (columns A) = Some j →
  join_row Inner (length (columns A)) i j (rows A) b = join_spec B A b.
Proof.
  intros Hi Hj. unfold join_row, join_spec.
  rewrite (matches_field A "code_dep" j) by done.
  replace (field B "Department code" b) with (cell i b)
    by (unfold field; by rewrite Hi).
  by destruct (filter _ (rows A)).
Qed.

Lemma columns_normalize_col name df :
  columns (normalize_col name df) = columns df.
Proof. unfold normalize_col. by destruct (index_of name (columns df)). Qed.

Lemma index_name_normalize_col name df :
  index_name (normalize_col name df) = index_name df.
Proof. unfold normalize_col. by destruct (index_of name (columns df)). Qed.

Lemma labels_normalize_col name df :
  label <$> rows (normalize_col name df) = label <$> rows df.
Proof.
  unfold normalize_col. destruct (index_of name (columns df)); [|done].
  cbn [rows]. rewrite <-list_fmap_compose. by apply list_fmap_ext.
Qed.


Lemma joiner_spec h ref rad B A :
  ref ≠ rad → h !! ref = Some B → h !! rad = Some A →
  "Department code" ∈ columns B → "code_dep" ∈ columns A →
  merge_referendum_and_areas ref rad h
  = Ok (dropna
          (Frame None
             (suffix_cols "_x" (columns A) (columns B)
                ++ suffix_cols "_y" (columns B) (columns A))
             (reindex
                (rows (normalize_col "Department code" B)
                   ≫= join_spec (normalize_col "Department code" B)
                        (normalize_col "code_dep" A)))),
        <[rad := normalize_col "code_dep" A]>
          (<[ref := normalize_col "Department code" B]> h)).
Proof.
  intros Hne HB HA [i Hi]%index_of_elem [j Hj]%index_of_elem.
  rewrite joiner_run, HB, Hi. cbn zeta.
  rewrite lookup_insert_ne, HA, Hj by done.
  rewrite lookup_insert_ne, lookup_insert_eq by done.
  set (B' := normalize_col "Department code" B).
  set (A' := normalize_col "code_dep" A).
  assert (columns B' = columns B) as HcB by apply columns_normalize_col.
  assert (columns A' = columns A) as HcA by apply columns_normalize_col.
  rewrite (merge_Ok B' A' _ _ Inner i j) by congruence.
  rewrite HcB, HcA. do 4 f_equal. f_equal.
  apply bind_ext_in. intros b _. rewrite <-HcA.
  apply join_row_inner; congruence.
Qed.

Lemma fmap_filter_cells (l : list row) :
  cells <$> filter (λ r, complete r) l = filter null_free (cells <$> l).
Proof.
  induction l as [|r l IH]; [done|].
  rewrite fmap_cons, !filter_cons, <-IH.
  unfold null_free at 1, complete at 1.
  by destruct (decide _).
Qed.

Lemma cells_dropna_reindex idx cols rs :
  cells <$> rows (dropna (Frame idx cols (reindex rs))) = filter null_free rs.
Proof. unfold dropna. cbn [rows]. by rewrite fmap_filter_cells, cells_reindex. Qed.




Lemma field_normalize_at (df : DataFrame) name i r :
  index_of name (columns df) = Some i →
  length (cells r) = length (columns df) →
  field (normalize_col name df) name (normalize_at i r)
  = normalize (field df name r).
Proof.
  intros Hi Hr. unfold field. rewrite columns_normalize_col, Hi.
  apply cell_insert_eq. rewrite Hr. by eapply index_of_lt.
Qed.

Lemma field_normalize_at_ne (df : DataFrame) name c i r :
  index_of name (columns df) = Some i → c ≠ name →
  field (normalize_col name df) c (normalize_at i r) = field df c r.
Proof.
  intros Hi Hc. unfold field. rewrite columns_normalize_col.
  destruct (index_of c (columns df)) as [j|] eqn:Hj; [|done].
  apply cell_insert_ne. intros ->. apply Hc. eapply index_of_inj; eauto.
Qed.

Lemma column_normalize_col name df :
  wf df → name ∈ columns df →
  column name (normalize_col name df) = normalize <$> column name df.
Proof.
  intros [_ Hlen] [i Hi]%index_of_elem. unfold column.
  rewrite (normalize_col_eq _ _ _ Hi) at 2. cbn [rows].
  rewrite <-!list_fmap_compose. apply list_fmap_ext.
  intros k r Hr. cbn [compose]. apply field_normalize_at; [done|].
  rewrite Forall_forall in Hlen. apply Hlen. by eapply list_elem_of_lookup_2.
Qed.

Lemma column_normalize_col_ne name c df :
  c ≠ name → column c (normalize_col name df) = column c df.
Proof.
  intros Hc. unfold column.
  destruct (index_of name (columns df)) as [i|] eqn:Hi.
  - rewrite (normalize_col_eq _ _ _ Hi) at 2. cbn [rows].
    rewrite <-list_fmap_compose. apply list_fmap_ext.
    intros k r _. cbn [compose]. by apply field_normalize_at_ne.
  - unfold normalize_col. by rewrite Hi.
Qed.





Lemma null_free_Forall cs : null_free cs ↔ Forall (λ v, isna v = false) cs.
Proof.
  unfold null_free. rewrite Is_true_true, forallb_forall, Forall_forall.
  split; intros H v Hv.
  - apply list_elem_of_In in Hv. apply H in Hv. by destruct (isna v).
  - apply list_elem_of_In in Hv. apply H in Hv. by rewrite Hv.
Qed.


(** C7, amended. The Area Resolver, the Regional Aggregator and the
    renderer leave the heap, and so their arguments, as they found them.
    The Ballot Joiner does not: it overwrites in place the
    ['Department code'] column of the ballot table and the [code_dep] column
    of the area table with their normalised values.  It changes nothing
    else: the other objects, and in the two tables the labels, the row order
    and every other column, stay as they were. *)
Theorem joiner_overwrites_key_columns :
  (∀ regions departments,
      readonly (merge_regions_and_departments regions departments))
  ∧ (∀ l, readonly (compute_referendum_result_by_regions l))
  ∧ (∀ gdf l, readonly (plot_referendum_map gdf l))
  ∧ (∀ h ref rad out h',
      merge_referendum_and_areas ref rad h = Ok (out, h') →
      ∃ B A,
        h !! ref = Some B
        ∧ (<[ref := normalize_col "Department code" B]> h) !! rad = Some A
        ∧ h' = <[rad := normalize_col "code_dep" A]>
                 (<[ref := normalize_col "Department code" B]> h)
        ∧ (∀ l, l ≠ ref → l ≠ rad → h' !! l = h !! l))
  ∧ (∀ name df,
      columns (normalize_col name df) = columns df
      ∧ index_name (normalize_col name df) = index_name df
      ∧ label <$> rows (normalize_col name df) = label <$> rows df
      ∧ (∀ c, c ≠ name → column c (normalize_col name df) = column c df)
      ∧ (wf df → name ∈ columns df →
         column name (normalize_col name df) = normalize <$> column name df)).
Proof.
  split; [apply resolver_readonly|]. split; [apply aggregator_readonly|].
  split; [apply renderer_readonly|]. split.
  - intros h ref rad out h' Hrun. rewrite joiner_run in Hrun.
    destruct (h !! ref) as [B|]; [|done].
    destruct (index_of "Department code" (columns B)); [|done].
    cbn zeta in Hrun.
    destruct (_ !! rad) as [A|] eqn:HA; [|done].
    destruct (index_of "code_dep" (columns A)); [|done].
    destruct (_ !! ref) as [L|]; [|done].
    destruct (merge L _ _ _ _); [|done].
    injection Hrun as <- <-.
    exists B, A. repeat split; try done.
    intros l H1 H2. by rewrite !lookup_insert_ne.
  - intros name df. split; [apply columns_normalize_col|].
    split; [apply index_name_normalize_col|].
    split; [apply labels_normalize_col|]. split.
    + intros c Hc. by apply column_normalize_col_ne.
    + apply column_normalize_col.
Qed.

(** ** The Regional Aggregator *)

Lemma mapM_fmap_Ok {A B} (f : A → result B) (g : A → B) (l : list A) :
  (∀ x, x ∈ l → f x = Ok (g x)) → mapM f l = Ok (g <$> l).
Proof.
  induction l as [|x l IH]; intros H; [done|].
  simpl. rewrite H by left. simpl. rewrite IH by (intros; apply H; by right).
  done.
Qed.

Lemma is_int_inv v : is_int v → ∃ n, v = VInt n.
Proof. destruct v; try done. eauto. Qed.

Lemma fold_add_ints a vs :
  Forall (λ v, ∃ n, v = VInt n) vs →
  fold_add (VInt a) vs = Ok (VInt (a + Zsum (int_of <$> vs))).
Proof.
  intros H. revert a. induction H as [|v vs [n ->] _ IH]; intros a.
  - simpl. by rewrite Z.add_0_r.
  - cbn [fold_add cell_add mbind result_bind]. rewrite IH.
    rewrite fmap_cons. unfold Zsum. cbn [foldr int_of]. do 2 f_equal. lia.
Qed.

Lemma sum_cells_ints vs :
  Forall (λ v, ∃ n, v = VInt n) vs →
  sum_cells vs = Ok (VInt (Zsum (int_of <$> vs))).
Proof.
  intros H. unfold sum_cells.
  assert (filter (λ v, negb (isna v)) vs = vs) as ->.
  { induction H as [|v vs [n ->] _ IH]; [done|].
    rewrite filter_cons_True by done. by rewrite IH. }
  destruct H as [|v vs [n ->] H]; [done|].
  rewrite fold_add_ints by done. by rewrite fmap_cons.
Qed.

Lemma group_keys_elem kpos rs k :
  k ∈ group_keys kpos rs ↔ ∃ r, r ∈ keyed_rows kpos rs ∧ k = key_of kpos r.
Proof.
  unfold group_keys. rewrite merge_sort_Permutation, elem_of_remove_dups.
  rewrite list_elem_of_fmap. split; intros (r & H1 & H2); eauto.
Qed.


Lemma fmap_cells_reindex {A} (g : list value → A) rs :
  (λ r, g (cells r)) <$> reindex rs = g <$> rs.
Proof.
  rewrite <-(cells_reindex rs) at 2. by rewrite <-list_fmap_compose.
Qed.

(** the row of the result for the group key [k] *)
Lemma aggregator_spec h l T :
  h !! l = Some T → aggregator_schema T → integer_counts T →
  ∃ ic im,
    index_of "code_reg" (columns T) = Some ic
    ∧ index_of "name_reg" (columns T) = Some im
    ∧ compute_referendum_result_by_regions l h
      = Ok (Frame (Some "code_reg") ("name_reg" :: count_names)
              ((λ k, Row (default VNull (k !! 0%nat))
                       (default VNull (k !! 1%nat)
                        :: ((λ c, VInt (Zsum ((λ r, int_of (field T c r))
                                               <$> group [ic; im] k (rows T))))
                            <$> count_names)))
                 <$> group_keys [ic; im] (rows T)), h).
Proof.
  intros Hl Hs Hint. unfold aggregator_schema, count_names in Hs.
  rewrite !Forall_cons in Hs.
  destruct Hs as ([ic Hic]%index_of_elem & [im Him]%index_of_elem
                  & [p1 Hp1]%index_of_elem & [p2 Hp2]%index_of_elem
                  & [p3 Hp3]%index_of_elem & [p4 Hp4]%index_of_elem
                  & [p5 Hp5]%index_of_elem & _).
  exists ic, im. split; [done|]. split; [done|].
  unfold compute_referendum_result_by_regions.
  rewrite (bind_deref _ _ _ _ Hl).
  set (sums := λ k : list value,
         (λ i, VInt (Zsum (int_of <$> (cell i <$> group [ic; im] k (rows T)))))
           <$> [p1; p2; p3; p4; p5]).
  assert (groupby_sum ["code_reg"; "name_reg"] count_names T
          = Ok (Frame None (["code_reg"; "name_reg"] ++ count_names)
                  (reindex ((λ k, k ++ sums k) <$> group_keys [ic; im] (rows T)))))
    as Hg.
  { unfold groupby_sum.
    rewrite (mapM_Ok _ ["code_reg"; "name_reg"] [ic; im]).
    2:{ repeat constructor; by apply col_pos_Ok. }
    rewrite (mapM_Ok _ count_names [p1; p2; p3; p4; p5]).
    2:{ repeat constructor; by apply col_pos_Ok. }
    cbn [mbind result_bind].
    rewrite (mapM_fmap_Ok _ (λ k, k ++ sums k)); [done|].
    intros k Hk.
    rewrite (mapM_fmap_Ok _
               (λ i, VInt (Zsum (int_of <$> (cell i <$> group [ic; im] k (rows T)))))).
    { done. }
    intros i Hi. apply sum_cells_ints. apply Forall_fmap, Forall_forall.
    intros r [_ [_ Hr]%list_elem_of_filter]%list_elem_of_filter.
    unfold integer_counts in Hint. rewrite Forall_forall in Hint.
    specialize (Hint r Hr). unfold count_names in Hint.
    unfold field in Hint. rewrite !Forall_cons in Hint.
    rewrite Hp1, Hp2, Hp3, Hp4, Hp5 in Hint.
    destruct Hint as (? & ? & ? & ? & ? & _).
    repeat (apply elem_of_cons in Hi as [->|Hi]; [by apply is_int_inv|]).
    by apply elem_of_nil in Hi. }
  rewrite (bind_lift _ _ _ _ Hg). clear Hg.
  assert (∀ df, index_of "code_reg" (columns df) = Some 0%nat →
            set_index "code_reg" df
            = Ok (Frame (Some "code_reg") (delete 0%nat (columns df))
                    ((λ r, Row (cell 0 r) (delete 0%nat (cells r))) <$> rows df)))
    as Hset.
  { intros df Hdf. unfold set_index. by rewrite (col_pos_Ok _ _ _ Hdf). }
  rewrite (bind_lift _ _ _ _
             (Hset (Frame None (["code_reg"; "name_reg"] ++ count_names) _)
                eq_refl)).
  clear Hset.
  erewrite lift_Ok; [|apply (select_Ok _ _ [0; 1; 2; 3; 4; 5]%nat);
                       repeat constructor].
  do 2 f_equal. cbn [index_name rows].
  f_equal.
  assert (∀ rs, (λ r, Row (cell 0 r) (delete 0%nat (cells r))) <$> reindex rs
                = (λ cs, Row (default VNull (cs !! 0%nat)) (delete 0%nat cs))
                    <$> rs) as ->
    by (intros rs;
        apply (fmap_cells_reindex
                 (λ cs, Row (default VNull (cs !! 0%nat)) (delete 0%nat cs)))).
  rewrite <-!list_fmap_compose. apply list_fmap_ext.
  intros _ k [r [_ ->]]%list_elem_of_lookup_2%group_keys_elem.
  cbn [compose label cells]. unfold cell. cbn.
  rewrite <-!list_fmap_compose. unfold field.
  by rewrite Hp1, Hp2, Hp3, Hp4, Hp5.
Qed.



(** ** The renderer *)





Lemma get_col_reindex name idx cols rs i :
  index_of name cols = Some i →
  get_col name (Frame idx cols (reindex rs))
  = Ok ((λ cs, default VNull (cs !! i)) <$> rs).
Proof.
  intros Hi. rewrite (get_col_Ok _ _ i) by done. f_equal.
  apply (fmap_cells_reindex (λ cs, default VNull (cs !! i))).
Qed.

Lemma join_row_left (gdf R : DataFrame) i j g :
  index_of "nom" (columns gdf) = Some i →
  index_of "name_reg" (columns R) = Some j →
  join_row Left (length (columns R)) i j (rows R) g = geo_join gdf R g.
Proof.
  intros Hi Hj. unfold join_row, geo_join.
  rewrite (matches_field R "name_reg" j) by done.
  replace (field gdf "nom" g) with (cell i g) by (unfold field; by rewrite Hi).
  done.
Qed.

Lemma geo_join_elem gdf R g cs :
  cs ∈ geo_join gdf R g ↔
    ((∀ r, r ∈ rows R → field R "name_reg" r ≠ field gdf "nom" g) ∧
     cs = cells g ++ replicate (length (columns R)) VNull) ∨
    (∃ r, r ∈ rows R ∧ field R "name_reg" r = field gdf "nom" g ∧
          cs = cells g ++ cells r).
Proof.
  unfold geo_join.
  destruct (filter _ (rows R)) as [|r0 ms] eqn:E.
  - assert (∀ r, r ∈ rows R → field R "name_reg" r ≠ field gdf "nom" g)
      as Hno.
    { intros r Hr Hk. revert Hr. by apply (filter_nil_not_elem_of _ _ r E). }
    rewrite list_elem_of_singleton. split.
    + intros ->. by left.
    + intros [[_ ->]|(r & Hr & Hk & _)]; [done|]. by apply Hno in Hr.
  - rewrite <-E. rewrite list_elem_of_fmap. split.
    + intros (r & -> & [Hk Hr]%list_elem_of_filter). right. eauto.
    + intros [[Hno _]|(r & Hr & Hk & ->)].
      * assert (r0 ∈ filter (λ r, field R "name_reg" r = field gdf "nom" g)
                         (rows R)) as [Hk Hr]%list_elem_of_filter
          by (rewrite E; left).
        by apply Hno in Hr.
      * exists r. split; [done|]. by apply list_elem_of_filter.
Qed.

Lemma lookup_joined (cs1 cs2 : list value) n p :
  length cs1 = n →
  default VNull ((cs1 ++ cs2) !! (n + p)%nat) = default VNull (cs2 !! p).
Proof.
  intros <-. rewrite lookup_app_r by lia. do 2 f_equal. lia.
Qed.










(** ** Binary64 division of two counts *)



























(** ** Errors of the Area Resolver *)

Lemma bind_lift_Err {A B} (r : result A) (k : A → M B) h e :
  r = Err e → (lift r ≫= k) h = Err e.
Proof. by intros ->. Qed.













(** ** The Area Resolver: department rows, one by one *)








(** ** The Ballot Joiner: errors, repeated calls, joined rows *)

Lemma suffix_cols_disjoint sfx other cols :
  (∀ c, c ∈ cols → c ∉ other) → suffix_cols sfx other cols = cols.
Proof.
  intros H. unfold suffix_cols.
  rewrite <-(list_fmap_id cols) at 2. apply list_fmap_ext.
  intros i c Hc. rewrite decide_False; [done|].
  apply H. by eapply list_elem_of_lookup_2.
Qed.

Lemma merged_columns_disjoint left right :
  (∀ c, c ∈ left → c ∉ right) →
  suffix_cols "_x" right left ++ suffix_cols "_y" left right = left ++ right.
Proof.
  intros H. rewrite !suffix_cols_disjoint; [done| |done].
  intros c Hr Hl. by apply (H c).
Qed.

Lemma normalize_idem v : normalize (normalize v) = normalize v.
Proof.
  unfold normalize at 1 3. cbn [to_str]. f_equal. unfold normalize.
  cbn [to_str]. apply zfill_id, length_zfill.
Qed.

Lemma normalize_at_idem i r : normalize_at i (normalize_at i r) = normalize_at i r.
Proof.
  unfold normalize_at. cbn [label cells]. f_equal.
  destruct (decide (i < length (cells r))%nat) as [Hi|Hi].
  - rewrite list_insert_insert_eq. f_equal.
    rewrite cell_insert_eq by done. apply normalize_idem.
  - rewrite !list_insert_ge; try done; try lia.
    rewrite list_insert_ge by lia. lia.
Qed.

Lemma normalize_col_idem name df :
  normalize_col name (normalize_col name df) = normalize_col name df.
Proof.
  destruct (index_of name (columns df)) as [i|] eqn:Hi.
  - rewrite (normalize_col_eq name df i Hi).
    rewrite (normalize_col_eq name _ i) by done. cbn [index_name columns rows].
    f_equal. rewrite <-list_fmap_compose. apply list_fmap_ext.
    intros _ r _. apply normalize_at_idem.
  - unfold normalize_col at 2. rewrite Hi. unfold normalize_col. by rewrite Hi.
Qed.

(** X4. The Ballot Joiner raises [KeyError] exactly when a key column is
    missing, on ['Department code'] first: the conversion to strings accepts
    every cell, so that with both key columns present (and no label shared
    by the two tables) the call returns whatever the cells hold. *)
Theorem joiner_missing_column h ref rad B A :
  ref ≠ rad → h !! ref = Some B → h !! rad = Some A →
  ("Department code" ∉ columns B →
   merge_referendum_and_areas ref rad h = Err (KeyError "Department code"))
  ∧ ("Department code" ∈ columns B → "code_dep" ∉ columns A →
     merge_referendum_and_areas ref rad h = Err (KeyError "code_dep"))
  ∧ ("Department code" ∈ columns B → "code_dep" ∈ columns A →
     (∀ c, c ∈ columns B → c ∉ columns A) →
     ∃ out h', merge_referendum_and_areas ref rad h = Ok (out, h')
               ∧ columns out = columns B ++ columns A).
Proof.
  intros Hne HB HA. split; [|split].
  - intros Hn%index_of_None. by rewrite joiner_run, HB, Hn.
  - intros [i Hi]%index_of_elem Hn%index_of_None.
    rewrite joiner_run, HB, Hi. cbn zeta.
    by rewrite lookup_insert_ne, HA, Hn.
  - intros HcB HcA Hdis. eexists _, _. split; [by apply joiner_spec|].
    cbn [dropna columns]. by apply merged_columns_disjoint.
Qed.

(** X5. The in-place normalisation of the Ballot Joiner is idempotent: a
    second call on the same two objects finds the key columns normalised,
    leaves the heap as the first call left it and returns the same table. *)
Theorem joiner_second_call h ref rad out h' :
  ref ≠ rad →
  merge_referendum_and_areas ref rad h = Ok (out, h') →
  merge_referendum_and_areas ref rad h' = Ok (out, h').
Proof.
  intros Hne Hrun. rewrite joiner_run in Hrun.
  destruct (h !! ref) as [B|] eqn:HB; [|done].
  destruct (index_of "Department code" (columns B)) as [i|] eqn:Hi; [|done].
  cbn zeta in Hrun. rewrite lookup_insert_ne in Hrun by done.
  destruct (h !! rad) as [A|] eqn:HA; [|done].
  destruct (index_of "code_dep" (columns A)) as [j|] eqn:Hj; [|done].
  rewrite lookup_insert_ne, lookup_insert_eq in Hrun by done.
  set (B' := normalize_col "Department code" B) in *.
  set (A' := normalize_col "code_dep" A) in *.
  destruct (merge B' A' _ _ _) as [m|e] eqn:Hm; [|done].
  injection Hrun as <- <-.
  set (h' := <[rad := A']> (<[ref := B']> h)).
  assert (h' !! ref = Some B') as HB'
    by (subst h'; by rewrite lookup_insert_ne, lookup_insert_eq).
  assert (h' !! rad = Some A') as HA' by (subst h'; apply lookup_insert_eq).
  assert (<[ref := B']> h' = h') as Hh1 by (by apply insert_id).
  assert (<[rad := A']> h' = h') as Hh2 by (by apply insert_id).
  rewrite joiner_run, HB'.
  subst B'. rewrite columns_normalize_col, Hi, normalize_col_idem. cbn zeta.
  rewrite Hh1, HA'.
  subst A'. rewrite columns_normalize_col, Hj, normalize_col_idem.
  rewrite Hh2, HB', Hm. done.
Qed.
Lemma field_joined_l idx (cols1 cols2 : list string) rs c p (cs1 cs2 : list value) l :
  index_of c cols1 = Some p → length cs1 = length cols1 →
  field (Frame idx (cols1 ++ cols2) rs) c (Row l (cs1 ++ cs2))
  = default VNull (cs1 !! p).
Proof.
  intros Hp Hlen. unfold field. cbn [columns].
  rewrite (index_of_app_l _ _ _ _ Hp). unfold cell. cbn [cells].
  rewrite lookup_app_l; [done|]. rewrite Hlen. by eapply index_of_lt.
Qed.

Lemma field_joined_r idx (cols1 cols2 : list string) rs c q (cs1 cs2 : list value) l :
  c ∉ cols1 → index_of c cols2 = Some q → length cs1 = length cols1 →
  field (Frame idx (cols1 ++ cols2) rs) c (Row l (cs1 ++ cs2))
  = default VNull (cs2 !! q).
Proof.
  intros Hn Hq Hlen. unfold field. cbn [columns].
  rewrite index_of_app_r, Hq by done. cbn. unfold cell. cbn [cells].
  rewrite <-Hlen. rewrite lookup_app_r by lia. do 2 f_equal. lia.
Qed.

Lemma cell_normalize_at_eq i r :
  (i < length (cells r))%nat → cell i (normalize_at i r) = normalize (cell i r).
Proof. intros H. by apply cell_insert_eq. Qed.

Lemma cell_normalize_at_ne i p r : i ≠ p → cell p (normalize_at i r) = cell p r.
Proof. intros H. unfold normalize_at. by rewrite cell_insert_ne. Qed.

Lemma length_normalize_at i r :
  length (cells (normalize_at i r)) = length (cells r).
Proof. apply length_insert. Qed.

Lemma filter_fmap_comm {A B} (P : B → Prop) `{∀ y, Decision (P y)}
    (f : A → B) (l : list A) :
  filter P (f <$> l) = f <$> filter (λ x, P (f x)) l.
Proof.
  induction l as [|x l IH]; [done|].
  rewrite fmap_cons, !filter_cons.
  destruct (decide (P (f x))); by rewrite IH.
Qed.

(** the rows of the Ballot Joiner on two tables without a common label *)
Lemma joiner_spec_disjoint h ref rad B A i j :
  ref ≠ rad → h !! ref = Some B → h !! rad = Some A →
  wf B → wf A →
  index_of "Department code" (columns B) = Some i →
  index_of "code_dep" (columns A) = Some j →
  (∀ c, c ∈ columns B → c ∉ columns A) →
  ∃ out,
    merge_referendum_and_areas ref rad h
    = Ok (out, <[rad := normalize_col "code_dep" A]>
                 (<[ref := normalize_col "Department code" B]> h))
    ∧ columns out = columns B ++ columns A
    ∧ index_name out = None
    ∧ cells <$> rows out
      = filter null_free
          (rows B ≫= λ b,
             (λ a, cells (normalize_at i b) ++ cells (normalize_at j a))
               <$> filter (λ a, normalize (cell j a) = normalize (cell i b))
                     (rows A)).
Proof.
  intros Hne HB HA [_ HlB] [_ HlA] Hi Hj Hdis.
  rewrite Forall_forall in HlB, HlA. eexists. split.
  { apply joiner_spec; try done.
    - apply index_of_Some in Hi. by eapply list_elem_of_lookup_2.
    - apply index_of_Some in Hj. by eapply list_elem_of_lookup_2. }
  split; [cbn [dropna columns]; by apply merged_columns_disjoint|].
  split; [done|].
  rewrite cells_dropna_reindex. f_equal.
  set (B' := normalize_col "Department code" B).
  set (A' := normalize_col "code_dep" A).
  assert (rows B' = normalize_at i <$> rows B) as ->
    by (subst B'; by rewrite (normalize_col_eq _ _ _ Hi)).
  rewrite bind_fmap. apply bind_ext_in. intros b Hb. cbn [compose].
  unfold join_spec.
  assert (rows A' = normalize_at j <$> rows A) as ->
    by (subst A'; by rewrite (normalize_col_eq _ _ _ Hj)).
  rewrite filter_fmap_comm, <-list_fmap_compose.
  assert (field B' "Department code" (normalize_at i b) = normalize (cell i b))
    as ->.
  { subst B'. rewrite field_normalize_at by auto. unfold field. by rewrite Hi. }
  f_equal. apply filter_ext_in. intros a Ha. cbn [compose].
  subst A'. rewrite field_normalize_at by auto. unfold field. by rewrite Hj.
Qed.
(** the fields of a joined row *)
Lemma joined_fields (B A out : DataFrame) i j b a o :
  wf B → wf A →
  index_of "Department code" (columns B) = Some i →
  index_of "code_dep" (columns A) = Some j →
  (∀ c, c ∈ columns B → c ∉ columns A) →
  columns out = columns B ++ columns A →
  b ∈ rows B → a ∈ rows A →
  cells o = cells (normalize_at i b) ++ cells (normalize_at j a) →
  field out "Department code" o = normalize (field B "Department code" b)
  ∧ field out "code_dep" o = normalize (field A "code_dep" a)
  ∧ (∀ c, c ∈ columns B → c ≠ "Department code" →
       field out c o = field B c b)
  ∧ (∀ c, c ∈ columns A → c ≠ "code_dep" → field out c o = field A c a).
Proof.
  intros [_ HlB] [_ HlA] Hi Hj Hdis Hcols Hb Ha Ho.
  rewrite Forall_forall in HlB, HlA.
  pose proof (HlB b Hb) as Lb. pose proof (HlA a Ha) as La.
  pose proof (index_of_lt _ _ _ Hi) as Li.
  pose proof (index_of_lt _ _ _ Hj) as Lj.
  assert (∀ c p, index_of c (columns B) = Some p →
            field out c o = cell p (normalize_at i b)) as HL.
  { intros c p Hp. destruct out as [idx cols rs], o as [l cs].
    cbn [columns cells] in *. subst cols cs.
    apply field_joined_l; [done|]. by rewrite length_normalize_at. }
  assert (∀ c q, c ∉ columns B → index_of c (columns A) = Some q →
            field out c o = cell q (normalize_at j a)) as HR.
  { intros c q Hn Hq. destruct out as [idx cols rs], o as [l cs].
    cbn [columns cells] in *. subst cols cs.
    apply field_joined_r; [done|done|]. by rewrite length_normalize_at. }
  assert (∀ c, c ∈ columns A → c ∉ columns B) as Hdis'.
  { intros c HA' HB'. by apply (Hdis c). }
  split; [|split; [|split]].
  - rewrite (HL _ _ Hi), cell_normalize_at_eq by lia.
    unfold field. by rewrite Hi.
  - rewrite (HR _ j), cell_normalize_at_eq; try done; try lia.
    + unfold field. by rewrite Hj.
    + apply Hdis'. apply index_of_Some in Hj. by eapply list_elem_of_lookup_2.
  - intros c [p Hp]%index_of_elem Hc.
    rewrite (HL _ _ Hp), cell_normalize_at_ne.
    + unfold field. by rewrite Hp.
    + intros ->. apply Hc. symmetry. eapply index_of_inj; eauto.
  - intros c Hc Hne. destruct (index_of_elem _ _ Hc) as [q Hq].
    rewrite (HR _ q), cell_normalize_at_ne; try done.
    + unfold field. by rewrite Hq.
    + intros ->. apply Hne. symmetry. eapply index_of_inj; eauto.
    + by apply Hdis'.
Qed.

(** a row whose cells, the key apart, are not missing has no missing cell
    once its key is normalised *)
Lemma normalize_at_null_free (df : DataFrame) name i r :
  wf df → index_of name (columns df) = Some i → r ∈ rows df →
  (∀ c, c ∈ columns df → c ≠ name → isna (field df c r) = false) →
  Forall (λ v, isna v = false) (cells (normalize_at i r)).
Proof.
  intros [Hnd Hlen] Hi Hr Hn. rewrite Forall_forall in Hlen.
  apply Forall_lookup. intros p v Hp. cbn in Hp.
  destruct (decide (p = i)) as [->|Hpi].
  - apply list_lookup_insert_Some in Hp as [(_ & <- & _)|[? _]]; done.
  - rewrite list_lookup_insert_ne in Hp by done.
    pose proof (lookup_lt_Some _ _ _ Hp) as Lp. rewrite (Hlen r Hr) in Lp.
    destruct (lookup_lt_is_Some_2 (columns df) p Lp) as [c Hc].
    assert (index_of c (columns df) = Some p) as Hcp.
    { destruct (index_of_elem c (columns df)) as [p' Hp'];
        [by eapply list_elem_of_lookup_2|].
      pose proof (index_of_Some _ _ _ Hp') as Hl.
      by rewrite (NoDup_lookup _ _ _ _ Hnd Hl Hc) in Hp'. }
    specialize (Hn c). unfold field in Hn. rewrite Hcp in Hn.
    unfold cell in Hn. rewrite Hp in Hn. apply Hn.
    + by eapply list_elem_of_lookup_2.
    + intros ->. rewrite Hi in Hcp. congruence.
Qed.

(** X6. Every row the Ballot Joiner returns is a ballot row next to an area
    row with the same normalised code: its two key cells hold that code, and
    every other cell is the cell of the ballot row or of the area row.
    Conversely every such pair whose joined row has no missing cell yields a
    row of the result. Codes are compared after normalisation, so that the
    integer 1 and the strings "1" and "01" are one code. *)
Theorem joiner_pairs_equal_codes h ref rad B A :
  ref ≠ rad → h !! ref = Some B → h !! rad = Some A →
  wf B → wf A →
  "Department code" ∈ columns B → "code_dep" ∈ columns A →
  (∀ c, c ∈ columns B → c ∉ columns A) →
  ∃ out h',
    merge_referendum_and_areas ref rad h = Ok (out, h')
    ∧ columns out = columns B ++ columns A
    ∧ (∀ o, o ∈ rows out →
         ∃ b a, b ∈ rows B ∧ a ∈ rows A
           ∧ normalize (field B "Department code" b)
             = normalize (field A "code_dep" a)
           ∧ field out "Department code" o
             = normalize (field B "Department code" b)
           ∧ field out "code_dep" o = field out "Department code" o
           ∧ (∀ c, c ∈ columns B → c ≠ "Department code" →
                field out c o = field B c b)
           ∧ (∀ c, c ∈ columns A → c ≠ "code_dep" →
                field out c o = field A c a))
    ∧ (∀ b a, b ∈ rows B → a ∈ rows A →
         normalize (field B "Department code" b)
         = normalize (field A "code_dep" a) →
         (∀ c, c ∈ columns B → c ≠ "Department code" →
            isna (field B c b) = false) →
         (∀ c, c ∈ columns A → c ≠ "code_dep" → isna (field A c a) = false) →
         ∃ o, o ∈ rows out
           ∧ field out "Department code" o
             = normalize (field B "Department code" b)
           ∧ (∀ c, c ∈ columns B → c ≠ "Department code" →
                field out c o = field B c b)
           ∧ (∀ c, c ∈ columns A → c ≠ "code_dep" →
                field out c o = field A c a)).
Proof.
  intros Hne HB HA HwB HwA HcB HcA Hdis.
  destruct (index_of_elem _ _ HcB) as [i Hi].
  destruct (index_of_elem _ _ HcA) as [j Hj].
  destruct (joiner_spec_disjoint h ref rad B A i j)
    as (out & Hrun & Hcols & _ & Hrows); try done.
  exists out. eexists. split; [exact Hrun|]. split; [done|].
  assert (∀ b, field B "Department code" b = cell i b) as EB
    by (intros b; unfold field; by rewrite Hi).
  assert (∀ a, field A "code_dep" a = cell j a) as EA
    by (intros a; unfold field; by rewrite Hj).
  split.
  - intros o Ho.
    assert (cells o ∈ cells <$> rows out) as Hin
      by (apply list_elem_of_fmap; eauto).
    rewrite Hrows in Hin.
    apply list_elem_of_filter in Hin as [_ Hin].
    apply list_elem_of_bind in Hin as (b & Hin & Hb).
    apply list_elem_of_fmap in Hin as (a & Hcs & [Hk Ha]%list_elem_of_filter).
    exists b, a.
    destruct (joined_fields B A out i j b a o) as (F1 & F2 & F3 & F4);
      try done.
    rewrite EB, EA. repeat split; try done.
    + by rewrite F1, EB.
    + by rewrite F1, F2, EB, EA.
  - intros b a Hb Ha Hk HnB HnA. rewrite EB, EA in Hk.
    set (cs := cells (normalize_at i b) ++ cells (normalize_at j a)).
    assert (cs ∈ cells <$> rows out) as (o & Ho & Hin)%list_elem_of_fmap.
    { rewrite Hrows. apply list_elem_of_filter. split.
      - apply null_free_Forall. subst cs. apply Forall_app.
        split; [by apply (normalize_at_null_free B "Department code")
               |by apply (normalize_at_null_free A "code_dep")].
      - apply list_elem_of_bind. exists b. split; [|done].
        apply list_elem_of_fmap. exists a. split; [done|].
        by apply list_elem_of_filter. }
    exists o. split; [done|].
    destruct (joined_fields B A out i j b a o) as (F1 & F2 & F3 & F4);
      try done.
Qed.
Lemma sublist_filter_bind_ones {A B C} (P : B → Prop) `{∀ y, Decision (P y)}
    (f : A → list B) (g : B → C) (k : A → C) (l : list A) :
  (∀ x, x ∈ l → (length (f x) ≤ 1)%nat) →
  (∀ x y, x ∈ l → y ∈ f x → g y = k x) →
  g <$> filter P (l ≫= f) `sublist_of` k <$> l.
Proof.
  induction l as [|x l IH]; intros Hlen Hg; [done|].
  rewrite bind_cons, filter_app, !fmap_app, fmap_cons.
  change (k x :: (k <$> l)) with ([k x] ++ (k <$> l)).
  apply sublist_app.
  - assert (length (f x) ≤ 1)%nat as Hx by (apply Hlen; left).
    destruct (f x) as [|y [|y' ys]] eqn:E; simpl in Hx; [| |lia].
    + apply sublist_nil_l.
    + rewrite filter_cons, filter_nil. destruct (decide (P y)).
      * cbn. rewrite (Hg x y); [done|left|]. rewrite E. left.
      * apply sublist_nil_l.
  - apply IH.
    + intros; apply Hlen; by right.
    + intros x' y Hx' Hy. apply Hg; [by right|done].
Qed.

Lemma bind_nil_all {A B} (f : A → list B) (l : list A) :
  (∀ x, x ∈ l → f x = []) → l ≫= f = [].
Proof.
  induction l as [|x l IH]; intros H; [done|].
  rewrite bind_cons, H, IH; [done| |left]. intros; apply H; by right.
Qed.

(** X7. When the normalised codes of the area table are distinct, the rows
    of the result are ballot rows in the order of the ballot table: dropping
    the columns of the area table from the result leaves a sub-sequence of
    the (normalised) ballot table. No ballot row is repeated and no two are
    swapped. *)
Theorem joiner_keeps_ballot_order h ref rad B A :
  ref ≠ rad → h !! ref = Some B → h !! rad = Some A →
  wf B → wf A →
  "Department code" ∈ columns B → "code_dep" ∈ columns A →
  (∀ c, c ∈ columns B → c ∉ columns A) →
  NoDup (normalize <$> column "code_dep" A) →
  ∃ out h',
    merge_referendum_and_areas ref rad h = Ok (out, h')
    ∧ (λ o, take (length (columns B)) (cells o)) <$> rows out
      `sublist_of` cells <$> rows (normalize_col "Department code" B).
Proof.
  intros Hne HB HA HwB HwA HcB HcA Hdis Hnd.
  destruct (index_of_elem _ _ HcB) as [i Hi].
  destruct (index_of_elem _ _ HcA) as [j Hj].
  destruct (joiner_spec_disjoint h ref rad B A i j)
    as (out & Hrun & Hcols & _ & Hrows); try done.
  exists out. eexists. split; [exact Hrun|].
  rewrite (normalize_col_eq _ _ _ Hi). cbn [rows].
  assert ((λ o, take (length (columns B)) (cells o)) <$> rows out
          = take (length (columns B)) <$> (cells <$> rows out)) as ->
    by (by rewrite <-list_fmap_compose).
  rewrite Hrows, <-list_fmap_compose.
  apply sublist_filter_bind_ones.
  - intros b Hb. rewrite length_fmap.
    assert (filter (λ a, normalize (cell j a) = normalize (cell i b)) (rows A)
            = filter (λ a, normalize (field A "code_dep" a) = normalize (cell i b))
                (rows A)) as ->.
    { apply filter_ext_in. intros a _. unfold field. by rewrite Hj. }
    apply (NoDup_fmap_filter (λ a, normalize (field A "code_dep" a))).
    unfold column in Hnd. by rewrite <-list_fmap_compose in Hnd.
  - intros b cs Hb (a & -> & _)%list_elem_of_fmap. cbn [compose].
    destruct HwB as [_ HlB]. rewrite Forall_forall in HlB.
    rewrite <-(HlB b Hb), <-(length_normalize_at i b).
    apply take_app_length.
Qed.

(** X8. When no ballot row and area row have the same normalised code (an
    empty ballot table, an empty area table, two disjoint sets of codes),
    the Ballot Joiner returns a table without rows, with the columns of the
    two tables; it raises no error. *)
Theorem joiner_without_match_is_empty h ref rad B A :
  ref ≠ rad → h !! ref = Some B → h !! rad = Some A →
  wf B → wf A →
  "Department code" ∈ columns B → "code_dep" ∈ columns A →
  (∀ c, c ∈ columns B → c ∉ columns A) →
  (∀ b a, b ∈ rows B → a ∈ rows A →
     normalize (field B "Department code" b)
     ≠ normalize (field A "code_dep" a)) →
  ∃ out h',
    merge_referendum_and_areas ref rad h = Ok (out, h')
    ∧ columns out = columns B ++ columns A
    ∧ rows out = [].
Proof.
  intros Hne HB HA HwB HwA HcB HcA Hdis Hno.
  destruct (index_of_elem _ _ HcB) as [i Hi].
  destruct (index_of_elem _ _ HcA) as [j Hj].
  destruct (joiner_spec_disjoint h ref rad B A i j)
    as (out & Hrun & Hcols & _ & Hrows); try done.
  exists out. eexists. split; [exact Hrun|]. split; [done|].
  apply (fmap_nil_inv cells). rewrite Hrows.
  assert (rows B ≫= (λ b,
            (λ a, cells (normalize_at i b) ++ cells (normalize_at j a))
              <$> filter (λ a, normalize (cell j a) = normalize (cell i b))
                    (rows A)) = []) as ->; [|done].
  apply bind_nil_all.
  intros b Hb. rewrite filter_none; [done|].
  intros a Ha Hk. apply (Hno b a Hb Ha). unfold field. by rewrite Hi, Hj.
Qed.
(** a join where every left row has exactly one partner, which passes the
    filter, goes row by row *)
Lemma Forall2_filter_bind_ones {A B} (P : B → Prop) `{∀ y, Decision (P y)}
    (Q : A → B → Prop) (f : A → list B) (l : list A) :
  (∀ x, x ∈ l → ∃ y, f x = [y] ∧ P y ∧ Q x y) →
  Forall2 Q l (filter P (l ≫= f)).
Proof.
  induction l as [|x l IH]; intros Hl; [constructor|].
  destruct (Hl x) as (y & Hy & HP & HQ); [left|].
  rewrite bind_cons, Hy. cbn [app]. rewrite filter_cons_True by done.
  constructor; [done|]. apply IH. intros; apply Hl; by right.
Qed.

(** the rows of the Ballot Joiner when every ballot row has its department
    and no cell is missing *)
Lemma joined_complete h ref rad B A T h' i j :
  ref ≠ rad → h !! ref = Some B → h !! rad = Some A →
  wf B → wf A →
  index_of "Department code" (columns B) = Some i →
  index_of "code_dep" (columns A) = Some j →
  (∀ c, c ∈ columns B → c ∉ columns A) →
  NoDup (normalize <$> column "code_dep" A) →
  (∀ b, b ∈ rows B →
     normalize (field B "Department code" b)
     ∈ normalize <$> column "code_dep" A) →
  (∀ b c, b ∈ rows B → c ∈ columns B → c ≠ "Department code" →
     isna (field B c b) = false) →
  (∀ a c, a ∈ rows A → c ∈ columns A → c ≠ "code_dep" →
     isna (field A c a) = false) →
  merge_referendum_and_areas ref rad h = Ok (T, h') →
  columns T = columns B ++ columns A
  ∧ Forall2 (λ b o,
       ∃ a, a ∈ rows A
            ∧ cells o = cells (normalize_at i b) ++ cells (normalize_at j a))
      (rows B) (rows T).
Proof.
  intros Hne HB HA HwB HwA Hi Hj Hdis Hnd Hall HnB HnA Hrun.
  destruct (joiner_spec_disjoint h ref rad B A i j)
    as (T' & Hrun' & Hcols & _ & Hrows); try done.
  rewrite Hrun in Hrun'. injection Hrun' as <- _.
  split; [done|].
  apply (Forall2_fmap_r cells
           (λ b cs, ∃ a, a ∈ rows A
                         ∧ cs = cells (normalize_at i b)
                                  ++ cells (normalize_at j a))).
  rewrite Hrows.
  apply Forall2_filter_bind_ones. intros b Hb.
  assert (∀ a, field A "code_dep" a = cell j a) as EA
    by (intros a; unfold field; by rewrite Hj).
  assert (field B "Department code" b = cell i b) as EB
    by (unfold field; by rewrite Hi).
  set (Fb := filter (λ a, normalize (cell j a) = normalize (cell i b)) (rows A)).
  assert (length Fb ≤ 1)%nat as Hle.
  { subst Fb.
    rewrite (filter_ext_in _ (λ a, normalize (field A "code_dep" a)
                                   = normalize (cell i b))).
    - apply (NoDup_fmap_filter (λ a, normalize (field A "code_dep" a))).
      unfold column in Hnd. by rewrite <-list_fmap_compose in Hnd.
    - intros a _. by rewrite EA. }
  assert (∃ a, a ∈ Fb) as [a Ha].
  { specialize (Hall b Hb). unfold column in Hall.
    rewrite <-list_fmap_compose in Hall.
    apply list_elem_of_fmap in Hall as (a & Heq & Ha). exists a.
    subst Fb. apply list_elem_of_filter. split; [|done].
    cbn [compose] in Heq. by rewrite <-EA, <-EB. }
  destruct Fb as [|a' [|a'' rest]] eqn:E; simpl in Hle; [| |lia].
  { by apply elem_of_nil in Ha. }
  apply list_elem_of_singleton in Ha as ->.
  assert (a' ∈ rows A) as Ha'.
  { assert (a' ∈ Fb) as [_ ?]%list_elem_of_filter by (subst Fb; rewrite E; left).
    done. }
  eexists. split; [done|]. split.
  - apply null_free_Forall, Forall_app. split.
    + apply (normalize_at_null_free B "Department code"); try done.
      intros c; by apply HnB.
    + apply (normalize_at_null_free A "code_dep"); try done.
      intros c; by apply HnA.
  - exists a'. done.
Qed.

(** X9. When the normalised area codes are distinct, every ballot row has
    its department among them, and no cell of the two tables is missing, the
    Ballot Joiner keeps every ballot row, once and in its place: the result
    has the rows of the ballot table, each ballot column of the result is
    that column of the ballot table, and the key column holds the normalised
    codes. *)
Theorem joiner_keeps_all_ballots h ref rad B A :
  ref ≠ rad → h !! ref = Some B → h !! rad = Some A →
  wf B → wf A →
  "Department code" ∈ columns B → "code_dep" ∈ columns A →
  (∀ c, c ∈ columns B → c ∉ columns A) →
  NoDup (normalize <$> column "code_dep" A) →
  (∀ b, b ∈ rows B →
     normalize (field B "Department code" b)
     ∈ normalize <$> column "code_dep" A) →
  (∀ b c, b ∈ rows B → c ∈ columns B → c ≠ "Department code" →
     isna (field B c b) = false) →
  (∀ a c, a ∈ rows A → c ∈ columns A → c ≠ "code_dep" →
     isna (field A c a) = false) →
  ∃ out h',
    merge_referendum_and_areas ref rad h = Ok (out, h')
    ∧ nrows out = nrows B
    ∧ column "Department code" out
      = normalize <$> column "Department code" B
    ∧ ∀ c, c ∈ columns B → c ≠ "Department code" →
        column c out = column c B.
Proof.
  intros Hne HB HA HwB HwA HcB HcA Hdis Hnd Hall HnB HnA.
  destruct (index_of_elem _ _ HcB) as [i Hi].
  destruct (index_of_elem _ _ HcA) as [j Hj].
  destruct (joiner_spec_disjoint h ref rad B A i j)
    as (out & Hrun & _); try done.
  destruct (joined_complete h ref rad B A out _ i j Hne HB HA HwB HwA Hi Hj
              Hdis Hnd Hall HnB HnA Hrun) as [Hcols Hrows].
  exists out. eexists. split; [exact Hrun|].
  split; [unfold nrows; symmetry; by eapply Forall2_length|].
  assert (Forall2 (λ b o,
            field out "Department code" o
            = normalize (field B "Department code" b)
            ∧ ∀ c, c ∈ columns B → c ≠ "Department code" →
                field out c o = field B c b) (rows B) (rows out)) as Hf.
  { apply Forall2_same_length_lookup. split; [by eapply Forall2_length|].
    intros k b o Hb Ho.
    destruct (Forall2_lookup_lr _ _ _ _ _ _ Hrows Hb Ho) as (a & Ha & Hcs).
    destruct (joined_fields B A out i j b a o) as (F1 & _ & F3 & _); try done.
    by eapply list_elem_of_lookup_2. }
  split.
  - unfold column. rewrite <-list_fmap_compose.
    apply list_eq_Forall2, Forall2_fmap, Forall2_flip.
    eapply Forall2_impl; [exact Hf|]. by intros b o [-> _].
  - intros c Hc Hne'. unfold column.
    apply list_eq_Forall2, Forall2_fmap, Forall2_flip.
    eapply Forall2_impl; [exact Hf|]. intros b o [_ H']. by apply H'.
Qed.
(** ** The Regional Aggregator: errors, groups, totals *)











(** ** The order of the groups *)

(** Merge sort with any decidable relation [R] puts [x] before [y] only
    when [R x y] holds or [R y x] fails. *)
Section merge_sort_weak.
Context {A : Type} (R : relation A) `{∀ x y, Decision (R x y)}.

Local Abbreviation W := (before R).

Lemma HdRel_list_merge_weak x l1 l2 :
  HdRel W x l1 → HdRel W x l2 → HdRel W x (list_merge R l1 l2).
Proof.
  intros [|x1 l1' H1] [|x2 l2' H2]; try (by constructor).
  rewrite list_merge_cons. case_decide; by constructor.
Qed.

Lemma Sorted_list_merge_weak l1 l2 :
  Sorted W l1 → Sorted W l2 → Sorted W (list_merge R l1 l2).
Proof.
  intros Hl1. revert l2.
  induction Hl1 as [|x1 l1 Hl1 IH1 Hd1]; intros l2 Hl2.
  { by rewrite list_merge_nil_l. }
  induction Hl2 as [|x2 l2 Hl2 IH2 Hd2].
  { rewrite list_merge_nil_r. by constructor. }
  rewrite list_merge_cons. case_decide as HR.
  - constructor; [apply IH1; by constructor|].
    apply HdRel_list_merge_weak; [done|]. constructor. by left.
  - constructor; [done|].
    apply HdRel_list_merge_weak; [|done]. constructor. by right.
Qed.

Local Abbreviation good := (sorted_run W).

Lemma Sorted_merge_list_to_stack_weak st l :
  Forall good st → Sorted W l → Forall good (merge_list_to_stack R st l).
Proof.
  intros Hst. revert l.
  induction Hst as [|[l'|] st Hl' Hst IH]; intros l Hl; simpl.
  - constructor; [exact Hl|constructor].
  - constructor; [exact I|]. apply IH. by apply Sorted_list_merge_weak.
  - constructor; [exact Hl|exact Hst].
Qed.

Lemma Sorted_merge_stack_weak st : Forall good st → Sorted W (merge_stack R st).
Proof.
  induction 1 as [|[l|] st Hl _ IH]; simpl; [constructor| |exact IH].
  by apply Sorted_list_merge_weak.
Qed.

Lemma Sorted_merge_sort_aux_weak st l :
  Forall good st → Sorted W (merge_sort_aux R st l).
Proof.
  revert st. induction l as [|x l IH]; intros st Hst; simpl.
  - by apply Sorted_merge_stack_weak.
  - apply IH. apply Sorted_merge_list_to_stack_weak; [done|].
    by repeat constructor.
Qed.

Lemma Sorted_merge_sort_weak l : Sorted W (merge_sort R l).
Proof. apply Sorted_merge_sort_aux_weak. constructor. Qed.

(** on a list whose elements [R] compares both ways, the result is sorted *)
Lemma Sorted_merge_sort_total l :
  (∀ x y, x ∈ l → y ∈ l → R x y ∨ R y x) → Sorted R (merge_sort R l).
Proof.
  intros Htot.
  assert (∀ x y, x ∈ merge_sort R l → y ∈ merge_sort R l → W x y → R x y)
    as Himpl.
  { intros x y Hx Hy [HR|HR]; [done|].
    rewrite merge_sort_Permutation in Hx, Hy.
    destruct (Htot x y Hx Hy); done. }
  pose proof (Sorted_merge_sort_weak l) as Hs. revert Himpl.
  induction Hs as [|x k Hk IH Hd]; intros Himpl; constructor.
  - apply IH. intros y z Hy Hz. apply Himpl; by right.
  - destruct Hd as [|y k HW]; constructor.
    apply Himpl; [left|right; left|done].
Qed.

End merge_sort_weak.
Lemma key_le_total_text k1 k2 :
  Forall (λ v, is_str v) k1 → Forall (λ v, is_str v) k2 →
  key_le k1 k2 ∨ key_le k2 k1.
Proof.
  unfold key_le. intros H1. revert k2.
  induction H1 as [|a k1 Ha _ IH]; intros k2 H2; [by left|].
  destruct H2 as [|b k2 Hb H2]; [by right|].
  cbn [key_leb]. destruct (decide (a = b)) as [->|Hne].
  - rewrite decide_True by done. by apply IH.
  - rewrite (decide_False (P := b = a)) by congruence.
    destruct a as [| | |s]; try done. destruct b as [| | |t]; try done.
    cbn [value_leb]. destruct (String.leb_total s t) as [->| ->]; auto.
Qed.

Lemma Sorted_fmap_in {A B} (f : A → B) (R1 : relation A) (R2 : relation B)
    (l : list A) :
  (∀ x y, x ∈ l → y ∈ l → R1 x y → R2 (f x) (f y)) →
  Sorted R1 l → Sorted R2 (f <$> l).
Proof.
  intros Hrel Hs. revert Hrel.
  induction Hs as [|x k Hk IH Hd]; intros Hrel; [constructor|].
  rewrite fmap_cons. constructor.
  - apply IH. intros y z Hy Hz. apply Hrel; by right.
  - destruct Hd as [|y k Hle]; [constructor|].
    rewrite fmap_cons. constructor. apply Hrel; [left|right; left|done].
Qed.

(** X13. On a table whose region codes and names are texts, the Regional
    Aggregator returns its rows sorted by code, then by name: the labels of
    the result are texts in non-decreasing lexicographic order, and rows
    with one label are in the order of their names. *)
Theorem aggregator_sorts_by_code h l T :
  h !! l = Some T → aggregator_schema T → integer_counts T → text_keys T →
  ∃ out,
    compute_referendum_result_by_regions l h = Ok (out, h)
    ∧ Sorted (λ o1 o2, key_le [label o1; field out "name_reg" o1]
                              [label o2; field out "name_reg" o2]) (rows out)
    ∧ Sorted (λ o1 o2, ∃ s1 s2, label o1 = VStr s1 ∧ label o2 = VStr s2
                                ∧ String.leb s1 s2 = true) (rows out).
Proof.
  intros Hl Hs Hint Htext.
  destruct (aggregator_spec h l T Hl Hs Hint) as (ic & im & Hic & Him & Hrun).
  eexists. split; [exact Hrun|].
  set (F := λ k : list value, Row _ _).
  set (out := Frame _ _ _). cbn [rows out].
  unfold text_keys in Htext. rewrite Forall_forall in Htext.
  assert (∀ k, k ∈ group_keys [ic; im] (rows T) →
            ∃ s n, k = [VStr s; VStr n]) as Hkeys.
  { intros k (r & [Hkey Hr]%list_elem_of_filter & ->)%group_keys_elem.
    destruct (Htext r Hr) as [H1 H2]. unfold field in H1, H2.
    rewrite Hic in H1. rewrite Him in H2. cbn in Hkey.
    unfold key_of. cbn.
    destruct (cell ic r) as [| |[]|s]; try done;
      destruct (cell im r) as [| |[]|n]; try done; eauto. }
  assert (Sorted key_le (group_keys [ic; im] (rows T))) as Hsorted.
  { unfold group_keys. apply Sorted_merge_sort_total.
    intros k1 k2 Hk1 Hk2.
    assert (∀ k, k ∈ remove_dups (key_of [ic; im] <$> keyed_rows [ic; im] (rows T))
                 → Forall (λ v, is_str v) k) as Hstr.
    { intros k Hk. destruct (Hkeys k) as (s & n & ->); [|by repeat constructor].
      unfold group_keys. by rewrite merge_sort_Permutation. }
    apply key_le_total_text; by apply Hstr. }
  assert (∀ rel : relation row,
            (∀ k1 k2, k1 ∈ group_keys [ic; im] (rows T) →
                      k2 ∈ group_keys [ic; im] (rows T) →
                      key_le k1 k2 → rel (F k1) (F k2)) →
            Sorted rel (F <$> group_keys [ic; im] (rows T))) as Hmap.
  { intros rel Hrel. by apply (Sorted_fmap_in F key_le). }
  split.
  - apply Hmap. intros k1 k2 Hk1 Hk2 Hle.
    destruct (Hkeys k1 Hk1) as (s1 & n1 & ->).
    destruct (Hkeys k2 Hk2) as (s2 & n2 & ->). exact Hle.
  - apply Hmap. intros k1 k2 Hk1 Hk2 Hle.
    destruct (Hkeys k1 Hk1) as (s1 & n1 & ->).
    destruct (Hkeys k2 Hk2) as (s2 & n2 & ->).
    exists s1, s2. split; [done|]. split; [done|].
    unfold key_le in Hle. cbn [key_leb] in Hle.
    destruct (decide (VStr s1 = VStr s2)) as [[= ->]|Hne].
    + by destruct (String.leb_total s2 s2).
    + cbn [value_leb] in Hle. by destruct (String.leb s1 s2).
Qed.
(** ** The renderer: errors, exact ratios, geometries *)




Lemma cell_add_Err a b e : cell_add a b = Err e → e = TypeError.
Proof.
  unfold cell_add. destruct a, b; cbn; try congruence.
Qed.

Lemma cell_div_Err a b e : cell_div a b = Err e → e = TypeError.
Proof.
  unfold cell_div. destruct a, b; cbn; congruence.
Qed.

Lemma ratio_cell_Ok a b v : ratio_cell a b = Ok v → numeric a ∧ numeric b.
Proof.
  unfold ratio_cell, cell_add, cell_div. destruct a, b; cbn; try done.
Qed.

Lemma mapM_Err_inv {A B} (f : A → result B) (l : list A) e :
  mapM f l = Err e → ∃ x, x ∈ l ∧ f x = Err e.
Proof.
  induction l as [|x l IH]; [done|]. simpl.
  destruct (f x) as [y|e'] eqn:Hx; simpl.
  - destruct (mapM f l) as [ys|e'']; simpl; [done|].
    intros [= ->]. destruct IH as (x' & Hin & Hx'); [done|].
    exists x'. split; [by right|done].
  - intros [= ->]. exists x. split; [left|done].
Qed.

Lemma series_add_Err xs ys e : series_add xs ys = Err e → e = TypeError.
Proof.
  intros ([a b] & _ & He)%mapM_Err_inv. by apply cell_add_Err in He.
Qed.

Lemma series_div_Err xs ys e : series_div xs ys = Err e → e = TypeError.
Proof.
  intros ([a b] & _ & He)%mapM_Err_inv. by apply cell_div_Err in He.
Qed.

(** the two element-wise operations return only on numbers and nulls *)
Lemma series_ratio_Ok {A} (fa fb : A → value) (l : list A) tv qs :
  series_add (fa <$> l) (fb <$> l) = Ok tv →
  series_div (fa <$> l) tv = Ok qs →
  ∀ x, x ∈ l → numeric (fa x) ∧ numeric (fb x).
Proof.
  unfold series_add, series_div. revert tv qs.
  induction l as [|x l IH]; intros tv qs Hadd Hdiv x0 Hx0;
    [by apply elem_of_nil in Hx0|].
  rewrite (fmap_cons fa), (fmap_cons fb) in Hadd.
  rewrite (fmap_cons fa) in Hdiv.
  cbn [zip zip_with mapM mbind result_bind fst snd] in Hadd.
  fold (zip (fa <$> l) (fb <$> l)) in Hadd.
  destruct (cell_add (fa x) (fb x)) as [t|e] eqn:Ht;
    cbn [mbind result_bind] in Hadd; [|done].
  destruct (mapM _ (zip (fa <$> l) (fb <$> l))) as [ts|e] eqn:Hts;
    cbn [mbind result_bind] in Hadd; [|done].
  injection Hadd as <-.
  cbn [zip zip_with mapM mbind result_bind fst snd] in Hdiv.
  fold (zip (fa <$> l) ts) in Hdiv.
  destruct (cell_div (fa x) t) as [q|e] eqn:Hq;
    cbn [mbind result_bind] in Hdiv; [|done].
  destruct (mapM _ (zip (fa <$> l) ts)) as [qs'|e] eqn:Hqs;
    cbn [mbind result_bind] in Hdiv; [|done].
  apply elem_of_cons in Hx0 as [->|Hx0].
  - apply (ratio_cell_Ok _ _ q). unfold ratio_cell. by rewrite Ht.
  - by apply (IH ts qs').
Qed.

(** X15. A text in a choice cell of a region that has a geometry makes the
    renderer raise [TypeError]: a text and a number cannot be added, and the
    sum of two texts, their concatenation, cannot divide a text. *)
Theorem renderer_text_count_raises h gdf l R g r :
  h !! l = Some R → wf gdf → wf R → renderer_schema gdf R →
  g ∈ rows gdf → r ∈ rows R → field R "name_reg" r = field gdf "nom" g →
  numeric (field R "Choice A" r) = false
  ∨ numeric (field R "Choice B" r) = false →
  plot_referendum_map gdf l h = Err TypeError.
Proof.
  intros Hl [_ Hg] [_ HR] (Hnom & Hname & HA & HB & HnA & HnB & Hr1 & Hr2)
    Hgin Hrin Hk Hbad.
  destruct (index_of_elem _ _ Hnom) as [i Hi].
  destruct (index_of_elem _ _ Hname) as [j Hj].
  destruct (index_of_elem _ _ HA) as [pa Hpa].
  destruct (index_of_elem _ _ HB) as [pb Hpb].
  unfold plot_referendum_map. rewrite (bind_deref _ _ _ _ Hl).
  rewrite (bind_lift _ _ _ _ (merge_Ok gdf R "nom" "name_reg" Left i j Hi Hj)).
  set (mcols := suffix_cols _ _ _ ++ _).
  assert (rows gdf ≫= join_row Left (length (columns R)) i j (rows R)
          = rows gdf ≫= geo_join gdf R) as ->.
  { apply bind_ext_in. intros g' _. by apply join_row_left. }
  set (joined := rows gdf ≫= geo_join gdf R).
  set (ia := (length (columns gdf) + pa)%nat).
  set (ib := (length (columns gdf) + pb)%nat).
  assert (index_of "Choice A" mcols = Some ia) as Hia
    by (by apply merged_index_r).
  assert (index_of "Choice B" mcols = Some ib) as Hib
    by (by apply merged_index_r).
  rewrite (bind_lift _ _ _ _ (get_col_reindex "Choice A" None mcols _ ia Hia)).
  rewrite (bind_lift _ _ _ _ (get_col_reindex "Choice B" None mcols _ ib Hib)).
  set (fa := λ cs : list value, default VNull (cs !! ia)).
  set (fb := λ cs : list value, default VNull (cs !! ib)).
  rewrite Forall_forall in Hg.
  assert (cells g ++ cells r ∈ joined) as Hin.
  { apply list_elem_of_bind. exists g. split; [|done].
    apply geo_join_elem. right. eauto. }
  assert (fa (cells g ++ cells r) = field R "Choice A" r
          ∧ fb (cells g ++ cells r) = field R "Choice B" r) as [Ea Eb].
  { subst fa fb ia ib. cbn beta.
    rewrite !(lookup_joined _ _ _ _ (Hg g Hgin)). unfold field.
    by rewrite Hpa, Hpb. }
  destruct (series_add (fa <$> joined) (fb <$> joined)) as [tv|e] eqn:Hadd.
  - rewrite (bind_lift _ _ _ _ eq_refl).
    destruct (series_div (fa <$> joined) tv) as [qs|e] eqn:Hdiv.
    + exfalso.
      destruct (series_ratio_Ok fa fb joined tv qs Hadd Hdiv _ Hin) as [Ha Hb].
      rewrite Ea in Ha. rewrite Eb in Hb.
      destruct Hbad as [Hbad|Hbad]; rewrite Hbad in *; done.
    + apply bind_lift_Err. by rewrite (series_div_Err _ _ _ Hdiv).
  - apply bind_lift_Err. by rewrite (series_add_Err _ _ _ Hadd).
Qed.


(** ** The script *)



















End Pipeline.


(** ** Instances on the sample tables *)

(** decidable side conditions on concrete tables *)
Ltac by_decide :=
  match goal with
  | |- ?P => apply (@bool_decide_unpack P _); vm_compute; exact I
  end.










(** C7, as stated, fails: after the call the ballot table passed as
    argument holds "01" where it held the integer 1, and "07" where it held
    "7". *)
Lemma joiner_mutates_ballot_table :
  ∃ out h', merge_referendum_and_areas sample_repr 4%positive 3%positive
              sample_heap_joiner = Ok (out, h')
    ∧ sample_heap_joiner !! 4%positive = Some sample_ballots
    ∧ column "Department code" sample_ballots
      = [VInt 1; VStr "07"; VStr "971"; VStr "7"; VStr "ZZ"]
    ∧ (column "Department code" <$> h' !! 4%positive)
      = Some [VStr "01"; VStr "07"; VStr "971"; VStr "07"; VStr "ZZ"]
    ∧ h' !! 4%positive ≠ sample_heap_joiner !! 4%positive.
Proof.
  eexists _, _. split; [vm_compute; reflexivity|].
  repeat split. by_decide.
Qed.









(** [joiner_overwrites_key_columns] on the sample tables: the call returns,
    and the heap it leaves holds the two tables with their key columns
    normalised. *)
Lemma joiner_overwrites_key_columns_witness :
  ∃ out h',
    merge_referendum_and_areas sample_repr 4%positive 3%positive
      sample_heap_joiner = Ok (out, h')
    ∧ h' = <[3%positive := normalize_col sample_repr "code_dep" sample_areas]>
             (<[4%positive := normalize_col sample_repr "Department code"
                                sample_ballots]> sample_heap_joiner).
Proof.
  destruct (merge_referendum_and_areas sample_repr 4%positive 3%positive
              sample_heap_joiner) as [[out h']|e] eqn:Hrun;
    [|vm_compute in Hrun; discriminate].
  exists out, h'. split; [reflexivity|].
  destruct (joiner_overwrites_key_columns sample_repr)
    as (_ & _ & _ & Hjoin & _).
  destruct (Hjoin _ _ _ _ _ Hrun) as (B & A & HB & HA & -> & _).
  vm_compute in HB. injection HB as <-.
  vm_compute in HA. injection HA as <-.
  reflexivity.
Defined.


(** ** Further instances on the sample tables *)




(** [joiner_missing_column] with the two sample tables in each other's
    place: the area table has no ['Department code']. *)
Lemma joiner_missing_column_witness :
  merge_referendum_and_areas sample_repr 3%positive 4%positive
    sample_heap_joiner = Err (KeyError "Department code").
Proof.
  destruct (joiner_missing_column sample_repr sample_heap_joiner 3%positive
              4%positive sample_areas sample_ballots)
    as (Hcode & _); [done|reflexivity|reflexivity|].
  apply Hcode. by_decide.
Defined.

(** [joiner_second_call] on the sample tables. *)
Lemma joiner_second_call_witness :
  ∃ out h',
    merge_referendum_and_areas sample_repr 4%positive 3%positive
      sample_heap_joiner = Ok (out, h')
    ∧ merge_referendum_and_areas sample_repr 4%positive 3%positive h'
      = Ok (out, h').
Proof.
  destruct (merge_referendum_and_areas sample_repr 4%positive 3%positive
              sample_heap_joiner) as [[out h']|e] eqn:Hrun;
    [|vm_compute in Hrun; discriminate].
  exists out, h'. split; [reflexivity|].
  apply (joiner_second_call sample_repr sample_heap_joiner); [done|exact Hrun].
Defined.

(** [joiner_pairs_equal_codes] on the sample tables. *)
Lemma joiner_pairs_equal_codes_witness :
  wf sample_ballots ∧ wf sample_areas ∧
  Forall (λ c, c ∉ columns sample_areas) (columns sample_ballots) ∧
  ∃ out h',
    merge_referendum_and_areas sample_repr 4%positive 3%positive
      sample_heap_joiner = Ok (out, h')
    ∧ columns out = columns sample_ballots ++ columns sample_areas
    ∧ ∀ o, o ∈ rows out →
        field out "code_dep" o = field out "Department code" o.
Proof.
  assert (wf sample_ballots) as H1 by by_decide.
  assert (wf sample_areas) as H2 by by_decide.
  assert (Forall (λ c, c ∉ columns sample_areas) (columns sample_ballots))
    as H3 by by_decide.
  do 3 (split; [assumption|]).
  destruct (joiner_pairs_equal_codes sample_repr sample_heap_joiner 4%positive
              3%positive sample_ballots sample_areas)
    as (out & h' & Hrun & Hcols & Hrows & _);
    try assumption; try reflexivity; try by_decide.
  { by apply Forall_forall. }
  exists out, h'. split; [exact Hrun|]. split; [exact Hcols|].
  intros o Ho. by destruct (Hrows o Ho) as (b & a & _ & _ & _ & _ & Heq & _).
Defined.

(** [joiner_keeps_ballot_order] on the sample tables. *)
Lemma joiner_keeps_ballot_order_witness :
  wf sample_ballots ∧ wf sample_areas ∧
  Forall (λ c, c ∉ columns sample_areas) (columns sample_ballots) ∧
  NoDup (normalize sample_repr <$> column "code_dep" sample_areas) ∧
  ∃ out h',
    merge_referendum_and_areas sample_repr 4%positive 3%positive
      sample_heap_joiner = Ok (out, h')
    ∧ (λ o, take (length (columns sample_ballots)) (cells o)) <$> rows out
      `sublist_of`
      cells <$> rows (normalize_col sample_repr "Department code"
                        sample_ballots).
Proof.
  assert (wf sample_ballots) as H1 by by_decide.
  assert (wf sample_areas) as H2 by by_decide.
  assert (Forall (λ c, c ∉ columns sample_areas) (columns sample_ballots))
    as H3 by by_decide.
  assert (NoDup (normalize sample_repr <$> column "code_dep" sample_areas))
    as H4 by by_decide.
  do 4 (split; [assumption|]).
  apply (joiner_keeps_ballot_order sample_repr sample_heap_joiner 4%positive
           3%positive sample_ballots sample_areas);
    try assumption; try reflexivity; try by_decide.
  by apply Forall_forall.
Defined.

(** [joiner_without_match_is_empty] on ballots of an unknown department. *)
Lemma joiner_without_match_is_empty_witness :
  wf unmatched_ballots ∧ wf sample_areas ∧
  Forall (λ c, c ∉ columns sample_areas) (columns unmatched_ballots) ∧
  Forall (λ b, Forall (λ a,
            normalize sample_repr (field unmatched_ballots "Department code" b)
            ≠ normalize sample_repr (field sample_areas "code_dep" a))
            (rows sample_areas)) (rows unmatched_ballots) ∧
  ∃ out h',
    merge_referendum_and_areas sample_repr 4%positive 3%positive
      unmatched_heap = Ok (out, h')
    ∧ rows out = [].
Proof.
  assert (wf unmatched_ballots) as H1 by by_decide.
  assert (wf sample_areas) as H2 by by_decide.
  assert (Forall (λ c, c ∉ columns sample_areas) (columns unmatched_ballots))
    as H3 by by_decide.
  assert (Forall (λ b, Forall (λ a,
            normalize sample_repr (field unmatched_ballots "Department code" b)
            ≠ normalize sample_repr (field sample_areas "code_dep" a))
            (rows sample_areas)) (rows unmatched_ballots)) as H4 by by_decide.
  do 4 (split; [assumption|]).
  destruct (joiner_without_match_is_empty sample_repr unmatched_heap 4%positive
              3%positive unmatched_ballots sample_areas)
    as (out & h' & Hrun & _ & Hrows);
    try assumption; try reflexivity; try by_decide.
  { by apply Forall_forall. }
  { intros b a Hb Ha. rewrite Forall_forall in H4. specialize (H4 b Hb).
    rewrite Forall_forall in H4. by apply H4. }
  exists out, h'. by split.
Defined.

(** [joiner_keeps_all_ballots] on the four ballot rows of known
    departments. *)
Lemma joiner_keeps_all_ballots_witness :
  wf full_ballots ∧ wf sample_areas ∧
  NoDup (normalize sample_repr <$> column "code_dep" sample_areas) ∧
  ∃ out h',
    merge_referendum_and_areas sample_repr 4%positive 3%positive
      full_heap_joiner = Ok (out, h')
    ∧ nrows out = nrows full_ballots
    ∧ column "Department code" out
      = [VStr "01"; VStr "07"; VStr "971"; VStr "07"].
Proof.
  assert (wf full_ballots) as H1 by by_decide.
  assert (wf sample_areas) as H2 by by_decide.
  assert (NoDup (normalize sample_repr <$> column "code_dep" sample_areas))
    as H3 by by_decide.
  do 3 (split; [assumption|]).
  assert (Forall (λ c, c ∉ columns sample_areas) (columns full_ballots))
    as H4 by by_decide.
  assert (Forall (λ b,
            normalize sample_repr (field full_ballots "Department code" b)
            ∈ normalize sample_repr <$> column "code_dep" sample_areas)
            (rows full_ballots)) as H5 by by_decide.
  assert (Forall (λ b, Forall (λ c,
            c ≠ "Department code" → isna (field full_ballots c b) = false)
            (columns full_ballots)) (rows full_ballots)) as H6 by by_decide.
  assert (Forall (λ a, Forall (λ c,
            c ≠ "code_dep" → isna (field sample_areas c a) = false)
            (columns sample_areas)) (rows sample_areas)) as H7 by by_decide.
  destruct (joiner_keeps_all_ballots sample_repr full_heap_joiner 4%positive
              3%positive full_ballots sample_areas)
    as (out & h' & Hrun & Hn & Hcode & _);
    try assumption; try reflexivity; try by_decide.
  { by apply Forall_forall. }
  { by apply Forall_forall. }
  { intros b c Hb Hc. rewrite Forall_forall in H6. specialize (H6 b Hb).
    rewrite Forall_forall in H6. by apply H6. }
  { intros a c Ha Hc. rewrite Forall_forall in H7. specialize (H7 a Ha).
    rewrite Forall_forall in H7. by apply H7. }
  exists out, h'. split; [exact Hrun|]. split; [exact Hn|].
  rewrite Hcode. reflexivity.
Defined.




(** [aggregator_sorts_by_code] on the sample tables. *)
Lemma aggregator_sorts_by_code_witness :
  aggregator_schema sample_resolved ∧ integer_counts sample_resolved ∧
  text_keys sample_resolved ∧
  ∃ out, compute_referendum_result_by_regions 5%positive sample_heap_aggregator
         = Ok (out, sample_heap_aggregator)
    ∧ Sorted (λ o1 o2, ∃ s1 s2, label o1 = VStr s1 ∧ label o2 = VStr s2
                                ∧ String.leb s1 s2 = true) (rows out).
Proof.
  assert (aggregator_schema sample_resolved) as H1 by by_decide.
  assert (integer_counts sample_resolved) as H2 by by_decide.
  assert (text_keys sample_resolved) as H3 by by_decide.
  do 3 (split; [assumption|]).
  destruct (aggregator_sorts_by_code sample_heap_aggregator 5%positive
              sample_resolved)
    as (out & Hrun & _ & Hsorted); try assumption; try reflexivity.
  exists out. by split.
Defined.


(** [renderer_text_count_raises] on results whose ['Choice A'] is a text. *)
Lemma renderer_text_count_raises_witness :
  wf sample_geometries ∧ wf text_results ∧
  renderer_schema sample_geometries text_results ∧
  plot_referendum_map sample_geometries 6%positive text_heap = Err TypeError.
Proof.
  assert (wf sample_geometries) as H1 by by_decide.
  assert (wf text_results) as H2 by by_decide.
  assert (renderer_schema sample_geometries text_results) as H3 by by_decide.
  do 3 (split; [assumption|]).
  apply (renderer_text_count_raises text_heap sample_geometries 6%positive
           text_results
           (Row (VInt 0) [VStr "84"; VStr "Auvergne";
                          VStr "POLYGON ((4 45, 5 45, 5 46, 4 45))"])
           (Row (VStr "84") [VStr "Auvergne"; VInt 330; VInt 33; VInt 3;
                             VStr "157"; VInt 137]));
    try assumption; try reflexivity; by_decide.
Defined.






